(** * Anthropic-to-OpenAI request translation: a shallow embedding

    The development follows [formatRequest] (model aliasing, message
    validation, the tool-call consistency validator and the format
    translator) and [oaiHandler.ts] (the provider-directive resolver and
    the forwarding handler, with [fetch] as a function of its arguments).

    Conventions of the embedding.
    - A JavaScript string is a [string]: a finite sequence of code units,
      each below 256.
    - An optional field [f?: T] is an [option T]; [None] is "absent".
    - A thrown [Error] is the [Err] side of [Result]; the message text is
      abstracted to a constructor carrying the same data (index, type tag,
      stringification context).
    - An object literal indexed by a string is a [gmap] of its own
      properties, read through [indexTable], which also finds the
      properties every object literal inherits from [Object.prototype].
    - [new Response(...)] is [newResponse], with the exceptions the Fetch
      standard gives the constructor.
    - Inputs are taken at their declared TypeScript types. *)

From stdpp Require Import base option list strings gmap.
From Stdlib Require Import Ascii String.

Local Open Scope string_scope.
Local Open Scope list_scope.

#[local] Set Warnings "-clear-no-such-hyp".

(** ** JavaScript string primitives *)

Module JsString.

(** [s.includes(searchString)]: substring containment. *)
Fixpoint includes (s searchString : string) : bool :=
  String.prefix searchString s ||
  match s with
  | EmptyString => false
  | String _ s' => includes s' searchString
  end.

(** A string is truthy iff it is not empty. *)
Definition truthy (s : string) : bool := negb (String.eqb s "").

(** White space and line terminators of ECMAScript among the code units
    below 256: TAB, LF, VT, FF, CR, SP and NBSP. *)
Definition is_white_space (c : ascii) : bool :=
  let n := nat_of_ascii c in
  (Nat.eqb n 9 || Nat.eqb n 10 || Nat.eqb n 11 || Nat.eqb n 12 ||
   Nat.eqb n 13 || Nat.eqb n 32 || Nat.eqb n 160)%bool.

Fixpoint trimStart (s : string) : string :=
  match s with
  | EmptyString => EmptyString
  | String c s' => if is_white_space c then trimStart s' else s
  end.

Fixpoint trimEnd (s : string) : string :=
  match s with
  | EmptyString => EmptyString
  | String c s' =>
      match trimEnd s' with
      | EmptyString => if is_white_space c then EmptyString else String c EmptyString
      | r => String c r
      end
  end.

(** [s.trim()] *)
Definition trim (s : string) : string := trimEnd (trimStart s).

End JsString.

Import JsString.

(** ** Model aliasing *)

(** [MODEL_MAPPING], in declaration order: [Object.entries] enumerates the
    string keys of an object literal in insertion order. *)
Definition MODEL_MAPPING : list (string * string) :=
  [ ("haiku",  "z-ai/glm-4.5-air:free");
    ("sonnet", "z-ai/glm-4.6:exacto");
    ("opus",   "tngtech/deepseek-r1t2-chimera:free") ].

(** The [for ... of Object.entries(MODEL_MAPPING)] loop of [mapModel]:
    the first entry whose keyword occurs in the name decides; when the
    loop runs off the table the original name is returned. *)
Fixpoint mapModel_scan (anthropicModel : string)
    (entries : list (string * string)) : string :=
  match entries with
  | [] => anthropicModel
  | (keyword, openRouterModel) :: rest =>
      if includes anthropicModel keyword then openRouterModel
      else mapModel_scan anthropicModel rest
  end.

Definition mapModel (anthropicModel : string) : string :=
  if includes anthropicModel "/" then anthropicModel
  else mapModel_scan anthropicModel MODEL_MAPPING.

Definition CHIMERA : string := "tngtech/deepseek-r1t2-chimera:free".

(** ** Target (OpenAI) messages *)

(** [OpenAIToolCall]; the constant [type: "function"] is left implicit. *)
Record OpenAIToolCall := mkToolCall {
  call_id : string;
  call_name : string;        (* function_def.name *)
  call_arguments : string;   (* function_def.arguments *)
}.

(** [content?: string | null] *)
Inductive Content :=
| Absent
| Null
| Text (s : string).

Record OpenAIMessage := mkMessage {
  role : string;
  content : Content;
  tool_calls : option (list OpenAIToolCall);
  tool_call_id : option string;
}.

(** Truthiness of [message.content]: a non-empty string. *)
Definition content_truthy (c : Content) : bool :=
  match c with
  | Text s => truthy s
  | Absent | Null => false
  end.

Definition has_role (r : string) (m : OpenAIMessage) : bool :=
  String.eqb (role m) r.

(** [{ ...m, tool_calls: v }], and [delete m.tool_calls] for [v = None]. *)
Definition set_tool_calls (v : option (list OpenAIToolCall))
    (m : OpenAIMessage) : OpenAIMessage :=
  {| role := role m; content := content m;
     tool_calls := v; tool_call_id := tool_call_id m |}.

(** ** The tool-call consistency validator *)

(** The [while (j < messages.length && messages[j].role === "tool")] loop,
    run on the messages after position [i]. *)
Fixpoint immediateToolMessages (following : list OpenAIMessage)
    : list OpenAIMessage :=
  match following with
  | m :: rest =>
      if has_role "tool" m then m :: immediateToolMessages rest else []
  | [] => []
  end.

(** [toolMessageMap]: each tool message with a truthy [tool_call_id] is
    [set] under that key, later ones overwriting earlier ones. *)
Definition toolMessageMap (toolMessages : list OpenAIMessage)
    : gmap string OpenAIMessage :=
  foldl (fun acc toolMsg =>
           match tool_call_id toolMsg with
           | Some k => if truthy k then <[k := toolMsg]> acc else acc
           | None => acc
           end) ∅ toolMessages.

(** The assistant branch: [calls] is [currentMessage.tool_calls]. *)
Definition validateAssistant (currentMessage : OpenAIMessage)
    (calls : list OpenAIToolCall) (following : list OpenAIMessage)
    : list OpenAIMessage :=
  let map := toolMessageMap (immediateToolMessages following) in
  let validToolCalls := filter (fun c => is_Some (map !! call_id c)) calls in
  let updated :=
    match validToolCalls with
    | [] => set_tool_calls None currentMessage
    | _ :: _ => set_tool_calls (Some validToolCalls) currentMessage
    end in
  if content_truthy (content updated) || bool_decide (is_Some (tool_calls updated))
  then [updated] else [].

(** [new Set(m.tool_calls.map(c => c.id))] *)
Definition toolCallIds (calls : list OpenAIToolCall) : gset string :=
  list_to_set (call_id <$> calls).

(** [currentMessage.tool_call_id ? toolCallIds.has(...) : false] *)
Definition idMatches (calls : list OpenAIToolCall)
    (currentMessage : OpenAIMessage) : bool :=
  match tool_call_id currentMessage with
  | Some k => if truthy k then bool_decide (k ∈ toolCallIds calls) else false
  | None => false
  end.

(** A message that is an assistant message and has a [tool_calls] field. *)
Definition assistantCalls (m : OpenAIMessage) : option (list OpenAIToolCall) :=
  if has_role "assistant" m then tool_calls m else None.

(** The [for (let k = i - 1; k >= 0; k--)] loop; [before] holds
    [messages[i-1], messages[i-2], ..., messages[0]]. *)
Fixpoint walkBack (before : list OpenAIMessage)
    (currentMessage : OpenAIMessage) : bool :=
  match before with
  | [] => false
  | candidate :: earlier =>
      if has_role "tool" candidate then walkBack earlier currentMessage
      else match assistantCalls candidate with
           | Some calls => idMatches calls currentMessage
           | None => false
           end
  end.

(** [hasImmediateToolCall] of the tool branch. *)
Definition hasImmediateToolCall (before : list OpenAIMessage)
    (currentMessage : OpenAIMessage) : bool :=
  match before with
  | [] => false                                   (* i = 0 *)
  | prevMessage :: _ =>
      match assistantCalls prevMessage with
      | Some calls => idMatches calls currentMessage
      | None =>
          if has_role "tool" prevMessage
          then walkBack before currentMessage
          else false
      end
  end.

(** One iteration of the main loop at position [i]: what is pushed onto
    [validatedMessages].  [before] is [messages[0..i)] reversed and
    [following] is [messages(i..)]. *)
Definition validateStep (before : list OpenAIMessage)
    (currentMessage : OpenAIMessage) (following : list OpenAIMessage)
    : list OpenAIMessage :=
  match assistantCalls currentMessage with
  | Some calls => validateAssistant currentMessage calls following
  | None =>
      if has_role "tool" currentMessage then
        if hasImmediateToolCall before currentMessage
        then [currentMessage] else []
      else [currentMessage]
  end.

Fixpoint validateLoop (before following : list OpenAIMessage)
    : list OpenAIMessage :=
  match following with
  | [] => []
  | currentMessage :: rest =>
      validateStep before currentMessage rest
        ++ validateLoop (currentMessage :: before) rest
  end.

Definition validateOpenAIToolCalls (messages : list OpenAIMessage)
    : list OpenAIMessage :=
  validateLoop [] messages.

(** ** Provider directives *)

Record ProviderConfig := mkProvider {
  only : option (list string);
  ignore : option (list string);
  allow_fallbacks : option bool;
  data_collection : option string;
  zdr : option bool;
}.

(** The names of the properties an object literal inherits from
    [Object.prototype].  Each of them holds a truthy value that is not a
    directive: a function, and for [__proto__] the prototype object. *)
Definition objectPrototypeKeys : list string :=
  ["constructor"; "__defineGetter__"; "__defineSetter__"; "hasOwnProperty";
   "__lookupGetter__"; "__lookupSetter__"; "isPrototypeOf";
   "propertyIsEnumerable"; "toString"; "valueOf"; "__proto__";
   "toLocaleString"].

(** What indexing a table of directives, or resolving a directive, can
    give besides [undefined]. *)
Inductive Resolved :=
| Directive (cfg : ProviderConfig)   (* a directive object *)
| Inherited (key : string).          (* the value inherited under [key] *)

(** [table[key]] for an object literal whose own properties are [table]:
    the own property if there is one, else the inherited one if [key]
    names one, else [undefined]. *)
Definition indexTable (table : gmap string ProviderConfig) (key : string)
    : option Resolved :=
  match table !! key with
  | Some cfg => Some (Directive cfg)
  | None =>
      if bool_decide (key ∈ objectPrototypeKeys) then Some (Inherited key)
      else None
  end.

(** The own properties of [modelProviderConfigs] of the translator. *)
Definition modelProviderConfigs : gmap string ProviderConfig :=
  <["z-ai/glm-4.6:exacto" :=
      mkProvider (Some ["z-ai"]) (Some ["deepinfra"; "chutes"; "novita"])
                 (Some false) (Some "deny") (Some true)]>
  (<["z-ai/glm-4.5-air:free" :=
      mkProvider (Some ["z-ai"]) (Some ["deepinfra"; "chutes"; "novita"])
                 (Some false) None None]>
  (<["tngtech/deepseek-r1t2-chimera:free" :=
      mkProvider (Some ["chutes"]) (Some ["deepinfra"; "novita"])
                 (Some false) None None]> ∅)).

(** ** Results of fallible code *)

Inductive Result (E A : Type) :=
| Ok (a : A)
| Err (e : E).
Arguments Ok {E A} a.
Arguments Err {E A} e.

(** Sequencing: the first throw aborts the rest. *)
#[global] Instance Result_ret {E} : MRet (Result E) := fun A a => Ok a.
#[global] Instance Result_bind {E} : MBind (Result E) :=
  fun A B k r =>
    match r with
    | Ok a => k a
    | Err e => Err e
    end.
#[global] Instance Result_fmap {E} : FMap (Result E) :=
  fun A B f r =>
    match r with
    | Ok a => Ok (f a)
    | Err e => Err e
    end.

(** The errors thrown by [validateAnthropicMessage]. *)
Inductive MessageError :=
| MessageRoleInvalid                       (* Message must have a valid role *)
| MessageContentMissing                    (* Message must have content *)
| PartTypeInvalid (index : nat)            (* ... must have a valid type *)
| ToolUseIdInvalid (index : nat)
| ToolUseNameInvalid (index : nat)
| ToolResultIdInvalid (index : nat)
| ToolResultContentMissing (index : nat)   (* ... must have content *)
| PartTypeUnknown (type : string).         (* Unknown content part type *)

(** The errors thrown by [formatAnthropicToOpenAI]. *)
Inductive Error :=
| ModelRequired                                    (* Model is required ... *)
| InvalidMessage (index : nat) (e : MessageError)  (* Invalid message at index ... *)
| StringifyFailed (context : string).              (* Failed to stringify ... *)

(** The two error kinds: a structural input error, or a serialization
    error raised by [safeJsonStringify]. *)
Definition is_structural (e : Error) : bool :=
  match e with
  | ModelRequired | InvalidMessage _ _ => true
  | StringifyFailed _ => false
  end.

Definition newline : string := String (ascii_of_nat 10) EmptyString.

(** ** The format translator *)

Section Translator.

(** JSON objects ([Record<string, unknown>]) and numbers are opaque to the
    translator; [JSON.stringify] either returns a string or throws. *)
Variable JsonObject : Type.
Variable Number : Type.
Variable json_stringify : JsonObject -> option string.

(** ** Source (Anthropic) conversation *)

Inductive ToolResultContent :=
| ResultString (s : string)
| ResultObject (o : JsonObject).

Inductive AnthropicContentPart :=
| TextPart (text : string)
| ToolUsePart (id name : string) (input : JsonObject)
| ToolResultPart (tool_use_id : string) (content : ToolResultContent)
| OtherPart (type : string).   (* a tag other than the three above *)

Inductive AnthropicContent :=
| StringContent (s : string)
| PartsContent (parts : list AnthropicContentPart).

Record AnthropicMessage := mkAnthropicMessage {
  a_role : string;
  a_content : AnthropicContent;
}.

Record ToolSchema := mkToolSchema {
  name : string;
  description : string;
  input_schema : JsonObject;
}.

(** [system?: string | Array<{ text: string }>] *)
Inductive SystemPrompt :=
| SystemString (s : string)
| SystemSegments (segments : list string).

Record MessageCreateParamsBase := mkBody {
  model : string;
  messages : list AnthropicMessage;
  system : option SystemPrompt;
  temperature : option Number;
  tools : option (list ToolSchema);
  stream : option bool;
}.

(** ** Target payload *)

Inductive CacheControl := Ephemeral.

Record SystemContentPart := mkSystemPart {
  sys_text : string;
  cache_control : option CacheControl;
}.

(** [{ role: "system", content: [...] }] *)
Record SystemMessage := mkSystemMessage {
  sys_content : list SystemContentPart;
}.

(** The entries of [data.messages]. *)
Inductive PayloadMessage :=
| SystemEntry (m : SystemMessage)
| ChatEntry (m : OpenAIMessage).

(** [{ type: "function", function: { name, description, parameters } }] *)
Record FunctionTool := mkFunctionTool {
  fn_name : string;
  fn_description : string;
  fn_parameters : JsonObject;
}.

Record Payload := mkPayload {
  p_model : string;
  p_messages : list PayloadMessage;
  p_temperature : option Number;
  p_stream : option bool;
  p_provider : option Resolved;
  p_tools : option (list FunctionTool);
}.

(** [safeJsonStringify(data, context)] *)
Definition safeJsonStringify (data : JsonObject) (context : string)
    : Result Error string :=
  match json_stringify data with
  | Some s => Ok s
  | None => Err (StringifyFailed context)
  end.

(** *** Validation *)

(** [!part.content] for a tool result. *)
Definition result_content_truthy (c : ToolResultContent) : bool :=
  match c with
  | ResultString s => truthy s
  | ResultObject _ => true
  end.

(** The body of the [forEach] callback of [validateAnthropicMessage]. *)
Definition validatePart (index : nat) (part : AnthropicContentPart)
    : Result MessageError unit :=
  match part with
  | TextPart _ => Ok tt
  | ToolUsePart id name _ =>
      if negb (truthy id) then Err (ToolUseIdInvalid index)
      else if negb (truthy name) then Err (ToolUseNameInvalid index)
      else Ok tt
  | ToolResultPart tool_use_id c =>
      if negb (truthy tool_use_id) then Err (ToolResultIdInvalid index)
      else if negb (result_content_truthy c) then Err (ToolResultContentMissing index)
      else Ok tt
  | OtherPart type =>
      if negb (truthy type) then Err (PartTypeInvalid index)
      else Err (PartTypeUnknown type)
  end.

Fixpoint validateParts (index : nat) (parts : list AnthropicContentPart)
    : Result MessageError unit :=
  match parts with
  | [] => Ok tt
  | part :: rest =>
      validatePart index part ;; validateParts (S index) rest
  end.

Definition validateAnthropicMessage (message : AnthropicMessage)
    : Result MessageError unit :=
  if negb (truthy (a_role message)) then Err MessageRoleInvalid
  else match a_content message with
       | StringContent s =>
           if negb (truthy s) then Err MessageContentMissing else Ok tt
       | PartsContent parts => validateParts 0 parts
       end.

(** [messages.forEach((message, index) => ...)] with the rethrow that adds
    the index. *)
Fixpoint validateMessages (index : nat) (msgs : list AnthropicMessage)
    : Result Error unit :=
  match msgs with
  | [] => Ok tt
  | message :: rest =>
      match validateAnthropicMessage message with
      | Err e => Err (InvalidMessage index e)
      | Ok _ => validateMessages (S index) rest
      end
  end.

(** *** Per-message expansion *)

(** The [forEach] over the parts of an assistant message, threading the
    two accumulators [textContent] and [toolCalls]. *)
Fixpoint assistantParts (parts : list AnthropicContentPart)
    (textContent : string) (toolCalls : list OpenAIToolCall)
    : Result Error (string * list OpenAIToolCall) :=
  match parts with
  | [] => Ok (textContent, toolCalls)
  | TextPart text :: rest =>
      assistantParts rest (textContent +:+ text +:+ newline) toolCalls
  | ToolUsePart id name input :: rest =>
      arguments ← safeJsonStringify input ("tool arguments for " +:+ name);
      assistantParts rest textContent
        (toolCalls ++ [mkToolCall id name arguments])
  | _ :: rest => assistantParts rest textContent toolCalls
  end.

(** The [forEach] over the parts of a user message, threading
    [userTextMessageContent] and [subsequentToolMessages]. *)
Fixpoint userParts (parts : list AnthropicContentPart)
    (userTextMessageContent : string)
    (subsequentToolMessages : list OpenAIMessage)
    : Result Error (string * list OpenAIMessage) :=
  match parts with
  | [] => Ok (userTextMessageContent, subsequentToolMessages)
  | TextPart text :: rest =>
      userParts rest (userTextMessageContent +:+ text +:+ newline)
        subsequentToolMessages
  | ToolResultPart tool_use_id c :: rest =>
      s ← match c with
          | ResultString s => Ok s
          | ResultObject o => safeJsonStringify o "tool result content"
          end;
      userParts rest userTextMessageContent
        (subsequentToolMessages
           ++ [mkMessage "tool" (Text s) None (Some tool_use_id)])
  | _ :: rest => userParts rest userTextMessageContent subsequentToolMessages
  end.

(** The callback of [messages.flatMap]. *)
Definition convertMessage (anthropicMessage : AnthropicMessage)
    : Result Error (list OpenAIMessage) :=
  match a_content anthropicMessage with
  | StringContent s =>
      Ok [mkMessage (a_role anthropicMessage) (Text s) None None]
  | PartsContent parts =>
      if String.eqb (a_role anthropicMessage) "assistant" then
        '(textContent, toolCalls) ← assistantParts parts "" [];
        let trimmedTextContent := trim textContent in
        let content :=
          if truthy trimmedTextContent then Text trimmedTextContent else Null in
        let tool_calls :=
          match toolCalls with
          | [] => None
          | _ :: _ => Some toolCalls
          end in
        let assistantMessage := mkMessage "assistant" content tool_calls None in
        if content_truthy content
           || match tool_calls with
              | Some (_ :: _) => true
              | _ => false
              end
        then Ok [assistantMessage] else Ok []
      else if String.eqb (a_role anthropicMessage) "user" then
        '(userTextMessageContent, subsequentToolMessages) ← userParts parts "" [];
        let trimmedUserText := trim userTextMessageContent in
        Ok ((if truthy trimmedUserText
             then [mkMessage "user" (Text trimmedUserText) None None]
             else [])
            ++ subsequentToolMessages)
      else Ok []
  end.

Fixpoint flatMapMessages (msgs : list AnthropicMessage)
    : Result Error (list OpenAIMessage) :=
  match msgs with
  | [] => Ok []
  | anthropicMessage :: rest =>
      here ← convertMessage anthropicMessage;
      there ← flatMapMessages rest;
      Ok (here ++ there)
  end.

(** *** System messages *)

(** [model.includes("claude") ? { cache_control: ... } : {}], on the model
    name of the request. *)
Definition cacheMarker (model : string) : option CacheControl :=
  if includes model "claude" then Some Ephemeral else None.

(** [const { ..., system = [], ... } = body]: an absent [system] takes the
    default, the empty array. *)
Definition systemOrDefault (system : option SystemPrompt) : SystemPrompt :=
  match system with
  | Some s => s
  | None => SystemSegments []
  end.

Definition systemMessages (model : string) (system : SystemPrompt)
    : list SystemMessage :=
  match system with
  | SystemSegments segments =>
      (fun item => mkSystemMessage [mkSystemPart item (cacheMarker model)])
        <$> segments
  | SystemString s =>
      [mkSystemMessage [mkSystemPart s (cacheMarker model)]]
  end.

(** *** Chimera stripping and assembly *)

(** The callback of [.map] on the Chimera path; [None] is [null], which
    [.filter(Boolean)] removes. *)
Definition stripToolData (message : PayloadMessage) : option PayloadMessage :=
  match message with
  | SystemEntry _ => Some message
  | ChatEntry m =>
      match assistantCalls m with
      | Some _ => Some (ChatEntry (set_tool_calls None m))
      | None => if has_role "tool" m then None else Some message
      end
  end.

Definition convertTool (item : ToolSchema) : FunctionTool :=
  mkFunctionTool (name item) (description item) (input_schema item).

Definition formatAnthropicToOpenAI (body : MessageCreateParamsBase)
    : Result Error Payload :=
  if negb (truthy (model body)) then Err ModelRequired else
  validateMessages 0 (messages body) ;;
  openAIMessages ← flatMapMessages (messages body);
  let systemMessages :=
    SystemEntry <$> systemMessages (model body) (systemOrDefault (system body)) in
  let mappedModel := mapModel (model body) in
  let isChimera := String.eqb mappedModel CHIMERA in
  let provider := indexTable modelProviderConfigs mappedModel in
  let tools :=
    match tools body with
    | Some tools => if isChimera then None else Some (convertTool <$> tools)
    | None => None
    end in
  let finalMessages :=
    if isChimera
    then omap stripToolData (systemMessages ++ (ChatEntry <$> openAIMessages))
    else systemMessages ++ (ChatEntry <$> validateOpenAIToolCalls openAIMessages) in
  Ok (mkPayload mappedModel finalMessages (temperature body) (stream body)
        provider tools).

End Translator.

Arguments TextPart {JsonObject} text.
Arguments ToolUsePart {JsonObject} id name input.
Arguments ToolResultPart {JsonObject} tool_use_id content.
Arguments OtherPart {JsonObject} type.
Arguments ResultString {JsonObject} s.
Arguments ResultObject {JsonObject} o.
Arguments StringContent {JsonObject} s.
Arguments PartsContent {JsonObject} parts.
Arguments mkAnthropicMessage {JsonObject} a_role a_content.
Arguments a_role {JsonObject} _.
Arguments a_content {JsonObject} _.
Arguments mkToolSchema {JsonObject} name description input_schema.
Arguments mkBody {JsonObject Number} model messages system temperature tools stream.
Arguments model {JsonObject Number} _.
Arguments messages {JsonObject Number} _.
Arguments system {JsonObject Number} _.
Arguments tools {JsonObject Number} _.
Arguments p_model {JsonObject Number} _.
Arguments p_messages {JsonObject Number} _.
Arguments p_provider {JsonObject Number} _.
Arguments p_tools {JsonObject Number} _.
Arguments validatePart {JsonObject} index part.
Arguments validateParts {JsonObject} index parts.
Arguments validateAnthropicMessage {JsonObject} message.
Arguments validateMessages {JsonObject} index msgs.
Arguments formatAnthropicToOpenAI {JsonObject Number} json_stringify body.

(** ** Provider-directive resolution (forwarding layer) *)

(** The own properties of [providerConfigs] of [oaiHandler.ts]. *)
Definition providerConfigs : gmap string ProviderConfig :=
  <["z-ai/glm-4.6:exacto" :=
      mkProvider (Some ["z-ai"]) (Some ["deepinfra"; "chutes"; "novita"])
                 (Some false) (Some "deny") (Some true)]>
  (<["minimax/minimax-m2" :=
      mkProvider (Some ["minimax"]) (Some ["deepinfra"; "chutes"; "novita"])
                 (Some false) (Some "deny") (Some true)]>
  (<["z-ai/glm-4.5-air:free" :=
      mkProvider (Some ["z-ai"]) (Some ["deepinfra"; "chutes"; "novita"])
                 (Some false) None None]>
  (<["tngtech/deepseek-r1t2-chimera:free" :=
      mkProvider (Some ["chutes"]) (Some ["deepinfra"; "novita"])
                 (Some false) None None]> ∅))).

(** The value of [body.provider], by the tests the resolver applies. *)
Inductive BodyProvider :=
| ProviderFalsy                          (* absent, null, or another falsy value *)
| ProviderKey (key : string)             (* a string *)
| ProviderInline (cfg : ProviderConfig)  (* an object *)
| ProviderOther.                         (* truthy, neither string nor object *)

(** [Headers]: its [get] method. *)
Definition Headers := string -> option string.

(** [a || b] on [string | null]. *)
Definition or_else (a b : option string) : option string :=
  match a with
  | Some s => if truthy s then a else b
  | None => b
  end.

Section Resolver.

(** [JSON.parse(headerVal)] followed by [parsed && typeof parsed ===
    "object"]: [Some cfg] when parsing succeeds with a non-null object,
    [None] when it throws or yields anything else. *)
Variable parse_object : string -> option ProviderConfig.

(** Step 1; the outer [Some] is a [return]. *)
Definition fromBody (provider : BodyProvider)
    : option (option Resolved) :=
  match provider with
  | ProviderFalsy => None
  | ProviderKey key =>
      if truthy key then Some (indexTable providerConfigs key) else None
  | ProviderInline cfg => Some (Some (Directive cfg))
  | ProviderOther => None
  end.

(** Step 2; the outer [Some] is a [return]. *)
Definition fromHeader (headers : Headers) : option (option Resolved) :=
  match or_else (headers "X-OpenRouter-Provider") (headers "X-Provider") with
  | Some headerVal =>
      if truthy headerVal then
        match indexTable providerConfigs headerVal with
        | Some value => Some (Some value)
        | None =>
            match parse_object headerVal with
            | Some parsed => Some (Some (Directive parsed))
            | None => None
            end
        end
      else None
  | None => None
  end.

(** Step 3. *)
Definition fromEnv (envDefault : option string) : option Resolved :=
  match envDefault with
  | Some key => if truthy key then indexTable providerConfigs key else None
  | None => None
  end.

Definition resolveProviderConfig (provider : BodyProvider)
    (headers : Headers) (envDefault : option string)
    : option Resolved :=
  match fromBody provider with
  | Some result => result
  | None =>
      match fromHeader headers with
      | Some result => result
      | None => fromEnv envDefault
      end
  end.

End Resolver.

(** ** Chimera stripping in the forwarding layer *)

Section Forwarding.

(** Tool declarations of an incoming OpenAI-format body are opaque. *)
Variable Tools : Type.

(** The fields of the incoming body that the handler inspects. *)
Record Incoming := mkIncoming {
  in_model : option string;                  (* a string, or not *)
  in_tools : option Tools;
  in_messages : option (list OpenAIMessage); (* an array, or not *)
}.

(** The callback of [.map] in [handleOaiIfMatch]. *)
Definition stripIncomingMessage (message : OpenAIMessage)
    : option OpenAIMessage :=
  if has_role "tool" message then None
  else match assistantCalls message with
       | Some _ => Some (set_tool_calls None message)
       | None => Some message
       end.

(** The Chimera block of [handleOaiIfMatch]. *)
Definition stripForChimera (incoming : Incoming) : Incoming :=
  let mappedModel :=
    match in_model incoming with
    | Some m => Some (mapModel m)
    | None => None
    end in
  if bool_decide (mappedModel = Some CHIMERA) then
    mkIncoming (in_model incoming) None
      match in_messages incoming with
      | Some msgs => Some (omap stripIncomingMessage msgs)
      | None => None
      end
  else incoming.

End Forwarding.

Arguments mkIncoming {Tools} in_model in_tools in_messages.
Arguments in_model {Tools} _.
Arguments in_tools {Tools} _.
Arguments in_messages {Tools} _.
Arguments stripForChimera {Tools} incoming.

(** ** Vocabulary of the pairing invariant *)

(** The invocations a message carries: none when the field is absent. *)
Definition invocations (m : OpenAIMessage) : list OpenAIToolCall :=
  default [] (tool_calls m).

(** Walking back from a position over the tool messages before it: the
    nearest preceding message whose role is not [tool].  [before] holds the
    earlier messages, nearest first. *)
Fixpoint precedingNonTool (before : list OpenAIMessage)
    : option OpenAIMessage :=
  match before with
  | [] => None
  | m :: earlier =>
      if has_role "tool" m then precedingNonTool earlier else Some m
  end.

(** Tool message [t] answers an invocation of [a], an assistant message. *)
Definition answers (t a : OpenAIMessage) : Prop :=
  role a = "assistant" ∧
  ∃ call, call ∈ invocations a ∧ tool_call_id t = Some (call_id call).

(** Every invocation of every assistant message is answered in the
    maximal run of tool messages right after the message. *)
Definition invocations_answered (out : list OpenAIMessage) : Prop :=
  ∀ pre a post call,
    out = pre ++ a :: post →
    role a = "assistant" →
    call ∈ invocations a →
    ∃ t, t ∈ immediateToolMessages post ∧
         tool_call_id t = Some (call_id call).

(** Every tool message answers an invocation of the nearest preceding
    non-tool message, which is an assistant message. *)
Definition results_anchored (out : list OpenAIMessage) : Prop :=
  ∀ pre t post,
    out = pre ++ t :: post →
    role t = "tool" →
    ∃ a, precedingNonTool (reverse pre) = Some a ∧ answers t a.

(** [m'] is [m] with some of its invocations left out, and nothing else
    changed. *)
Definition trimmed_copy (m m' : OpenAIMessage) : Prop :=
  role m' = role m ∧ content m' = content m ∧
  tool_call_id m' = tool_call_id m ∧
  sublist (invocations m') (invocations m).

(** [out] arises from [ms] by leaving messages out and leaving invocations
    out, keeping the order. *)
Definition drawn_from (ms out : list OpenAIMessage) : Prop :=
  ∃ kept, sublist kept ms ∧ Forall2 trimmed_copy kept out.

(** ** Auxiliary view of the validator loop

    The loop consults the messages before position [i] only to find the
    nearest preceding non-tool message.  [loopFrom] carries that message
    instead of the whole prefix. *)

Definition keeps (candidate : option OpenAIMessage) (t : OpenAIMessage)
    : bool :=
  match candidate with
  | Some c =>
      match assistantCalls c with
      | Some calls => idMatches calls t
      | None => false
      end
  | None => false
  end.

Fixpoint loopFrom (candidate : option OpenAIMessage)
    (following : list OpenAIMessage) : list OpenAIMessage :=
  match following with
  | [] => []
  | m :: rest =>
      if has_role "tool" m
      then (if keeps candidate m then [m] else []) ++ loopFrom candidate rest
      else validateStep [] m rest ++ loopFrom (Some m) rest
  end.

(** The same invariant, stated along the list with the nearest preceding
    non-tool message carried as a parameter. *)
Fixpoint paired (candidate : option OpenAIMessage)
    (out : list OpenAIMessage) : Prop :=
  match out with
  | [] => True
  | m :: rest =>
      if has_role "tool" m
      then (∃ a, candidate = Some a ∧ answers m a) ∧ paired candidate rest
      else (role m = "assistant" →
            ∀ call, call ∈ invocations m →
              ∃ t, t ∈ immediateToolMessages rest ∧
                   tool_call_id t = Some (call_id call))
           ∧ paired (Some m) rest
  end.

(** ** Vocabulary of the translator's guarantees *)

(** The system messages among the entries of [data.messages]: the
    [SystemMessage] objects built from the system prompt.  (A source
    message with role [system] and string content becomes a chat entry.) *)
Definition system_entries (entries : list PayloadMessage)
    : list SystemMessage :=
  omap (fun e => match e with
                 | SystemEntry m => Some m
                 | ChatEntry _ => None
                 end) entries.

(** An assistant message that says something: it has non-empty content
    or at least one invocation. *)
Definition informative (m : OpenAIMessage) : Prop :=
  role m = "assistant" →
  content_truthy (content m) = true ∨
  ∃ call calls, tool_calls m = Some (call :: calls).

(** The texts of the source system prompt, in order. *)
Definition prompt_texts (system : option SystemPrompt) : list string :=
  match system with
  | Some (SystemSegments segments) => segments
  | Some (SystemString s) => [s]
  | None => []
  end.

(** A source message whose content is the empty string, or one of whose
    parts is a tool result whose content is the empty string. *)
Definition has_empty_content {JsonObject : Type}
    (message : AnthropicMessage JsonObject) : Prop :=
  a_content message = StringContent "" ∨
  ∃ parts tool_use_id,
    a_content message = PartsContent parts ∧
    ToolResultPart tool_use_id (ResultString "") ∈ parts.

(** The texts carried by the system parts of the payload, in order. *)
Definition system_part_texts (entries : list PayloadMessage) : list string :=
  List.concat
    ((fun m => sys_text <$> sys_content m) <$> system_entries entries).

(** ** Vocabulary of provider-directive resolution *)


(** [headers.get(name)] gives nothing usable: [null] or the empty
    string. *)
Definition header_unset (headers : Headers) (name : string) : Prop :=
  headers name = None ∨ headers name = Some "".



(** ** A concrete instance

    For examples, JSON objects are left uninterpreted, every one of them
    serialising to the same text, and numbers are integers. *)
Definition stringify_any (o : unit) : option string := Some "{}".

(** A header parser for examples: it accepts the empty object only. *)
Definition parse_empty_object (s : string) : option ProviderConfig :=
  if String.eqb s "{}" then Some (mkProvider None None None None None)
  else None.

Definition ExampleBody : Type := MessageCreateParamsBase unit Z.

(** Scenario D: an assistant turn that only invokes a tool, sent to a
    model name that aliases to Chimera. *)
Definition opus_tool_only : ExampleBody :=
  mkBody "claude-3-opus"
    [mkAnthropicMessage "assistant"
       (PartsContent [ToolUsePart "t1" "search" tt])]
    None None (Some [mkToolSchema "search" "Search the web" tt]) None.

(** An assistant turn with text and an invocation, answered by the user
    turn that follows; the system prompt has two segments. *)
Definition opus_conversation : ExampleBody :=
  mkBody "claude-3-opus"
    [mkAnthropicMessage "user" (StringContent "find x");
     mkAnthropicMessage "assistant"
       (PartsContent [TextPart "searching"; ToolUsePart "t1" "search" tt]);
     mkAnthropicMessage "user"
       (PartsContent [ToolResultPart "t1" (ResultString "result")])]
    (Some (SystemSegments ["be brief"; "be kind"])) None
    (Some [mkToolSchema "search" "Search the web" tt]) None.

(** The same request shape under other model names and system prompts. *)
Definition request (model : string) (system : option SystemPrompt)
    : ExampleBody :=
  mkBody model [mkAnthropicMessage "user" (StringContent "hello")]
    system None None None.

(** Scenarios B and C: an assistant turn invoking tool [t1], then a user
    turn answering invocation [answered]. *)
Definition tool_round_trip (answered : string) : ExampleBody :=
  mkBody "claude-3-sonnet"
    [mkAnthropicMessage "assistant"
       (PartsContent [ToolUsePart "t1" "search" tt]);
     mkAnthropicMessage "user"
       (PartsContent [ToolResultPart answered (ResultString "result")])]
    None None None None.

(** An incoming OpenAI-format body for the forwarding layer. *)
Definition opus_incoming : Incoming unit :=
  mkIncoming (Some "opus") (Some tt)
    (Some [mkMessage "assistant" (Text "searching")
             (Some [mkToolCall "t1" "search" "{}"]) None;
           mkMessage "tool" (Text "result") None (Some "t1");
           mkMessage "user" (Text "thanks") None None]).


(** ** Vocabulary of the per-message expansion *)

(** What [validateAnthropicMessage] asks of a content part and of a
    message, as propositions. *)
Definition part_ok {JsonObject : Type}
    (part : AnthropicContentPart JsonObject) : Prop :=
  match part with
  | TextPart _ => True
  | ToolUsePart id name _ => id ≠ "" ∧ name ≠ ""
  | ToolResultPart tool_use_id c => tool_use_id ≠ "" ∧ c ≠ ResultString ""
  | OtherPart _ => False
  end.

Definition message_ok {JsonObject : Type}
    (message : AnthropicMessage JsonObject) : Prop :=
  a_role message ≠ "" ∧
  match a_content message with
  | StringContent s => s ≠ ""
  | PartsContent parts => Forall part_ok parts
  end.

(** The [tool_use] parts of a content array, in order. *)
Definition tool_uses {JsonObject : Type}
    (parts : list (AnthropicContentPart JsonObject))
    : list (string * string * JsonObject) :=
  omap (fun part => match part with
                    | ToolUsePart id name input => Some (id, name, input)
                    | _ => None
                    end) parts.

(** The [tool_result] parts of a content array, in order. *)
Definition tool_results {JsonObject : Type}
    (parts : list (AnthropicContentPart JsonObject))
    : list (string * ToolResultContent JsonObject) :=
  omap (fun part => match part with
                    | ToolResultPart tool_use_id c => Some (tool_use_id, c)
                    | _ => None
                    end) parts.

(** The texts of the [text] parts, each followed by a newline, joined in
    order. *)
Fixpoint joined_text {JsonObject : Type}
    (parts : list (AnthropicContentPart JsonObject)) : string :=
  match parts with
  | [] => ""
  | TextPart text :: rest => text +:+ newline +:+ joined_text rest
  | _ :: rest => joined_text rest
  end.

(** A target invocation built from a [tool_use] part. *)
Definition invocation_from {JsonObject : Type}
    (json_stringify : JsonObject → option string)
    (use : string * string * JsonObject) (call : OpenAIToolCall) : Prop :=
  call_id call = use.1.1 ∧ call_name call = use.1.2 ∧
  json_stringify use.2 = Some (call_arguments call).

(** A target tool message built from a [tool_result] part. *)
Definition tool_message_from {JsonObject : Type}
    (json_stringify : JsonObject → option string)
    (result : string * ToolResultContent JsonObject)
    (t : OpenAIMessage) : Prop :=
  role t = "tool" ∧ tool_call_id t = Some result.1 ∧ tool_calls t = None ∧
  match result.2 with
  | ResultString s => content t = Text s
  | ResultObject o => ∃ s, json_stringify o = Some s ∧ content t = Text s
  end.

(** The target message of a source message with plain-string content. *)
Definition plain_message {JsonObject : Type}
    (message : AnthropicMessage JsonObject) : OpenAIMessage :=
  mkMessage (a_role message)
    (Text match a_content message with
          | StringContent s => s
          | PartsContent _ => ""
          end)
    None None.

(** ** The forwarding handler of [oaiHandler.ts] *)

Definition OAI_CHAT_PATH : string := "/oai/v1/chat/completions".
Definition OAI_RESPONSES_PATH : string := "/oai/v1/responses".
Definition OAI_MODELS_PATH : string := "/oai/v1/models".

(** [s.startsWith(p)] *)
Definition startsWith (s p : string) : bool := String.prefix p s.

(** [s.slice(n)] for [0 <= n]: the string without its first [n] code
    units. *)
Fixpoint slice (s : string) (n : nat) : string :=
  match n, s with
  | 0, _ => s
  | S _, EmptyString => EmptyString
  | S n', String _ s' => slice s' n'
  end.

(** [shouldHandleOai(url, method)], on [url.pathname]. *)
Definition shouldHandleOai (pathname method : string) : bool :=
  if String.eqb method "POST" then
    String.eqb pathname OAI_CHAT_PATH || String.eqb pathname OAI_RESPONSES_PATH
  else if String.eqb method "GET" then
    String.eqb pathname OAI_MODELS_PATH
    || startsWith pathname (OAI_MODELS_PATH +:+ "/")
  else false.

(** [buildForwardHeaders(bearerToken)]: a plain object, keys as written.
    The argument is [string | undefined]. *)
Definition buildForwardHeaders (bearerToken : option string)
    : gmap string string :=
  let headers : gmap string string :=
    {["Content-Type" := "application/json"]} in
  match bearerToken with
  | Some token =>
      if truthy token
      then <["Authorization" := "Bearer " +:+ token]> headers
      else headers
  | None => headers
  end.

(** Case folding of the regular expression flag [i] on code units below
    128: the letters [A-Z] and [a-z] are identified. *)
Definition fold_case (c : ascii) : ascii :=
  let n := nat_of_ascii c in
  if (Nat.leb 65 n && Nat.leb n 90)%bool then ascii_of_nat (n + 32) else c.

(** Matching a literal at the start of a string under flag [i]: the rest
    of the string after the match. *)
Fixpoint match_prefix_ci (literal s : string) : option string :=
  match literal, s with
  | EmptyString, _ => Some s
  | String _ _, EmptyString => None
  | String a literal', String b s' =>
      if Ascii.eqb (fold_case a) (fold_case b)
      then match_prefix_ci literal' s' else None
  end.

(** [s.replace(/^Bearer\s+/i, "")]: the match, if any, is ["Bearer"] in
    any case followed by all the white space after it, one character at
    least; without a match the string is returned as it is. *)
Definition stripBearer (s : string) : string :=
  match match_prefix_ci "Bearer" s with
  | Some (String c rest) =>
      if is_white_space c then trimStart rest else s
  | _ => s
  end.

(** [request.headers.get("X-Api-Key") ||
     request.headers.get("Authorization")?.replace(/^Bearer\s+/i, "")] *)
Definition bearerToken (headers : Headers) : option string :=
  or_else (headers "X-Api-Key")
    match headers "Authorization" with
    | Some authorization => Some (stripBearer authorization)
    | None => None
    end.

(** The environment bindings the handler reads. *)
Record Env := mkEnv {
  OPENROUTER_BASE_URL : option string;
  OPENROUTER_DEFAULT_PROVIDER : option string;
}.

(** [env.OPENROUTER_BASE_URL || "https://openrouter.ai/api/v1"] *)
Definition baseUrl (env : Env) : string :=
  match OPENROUTER_BASE_URL env with
  | Some url => if truthy url then url else "https://openrouter.ai/api/v1"
  | None => "https://openrouter.ai/api/v1"
  end.

(** The value of [incoming.provider] after the injection block. *)
Inductive ForwardedProvider :=
| Untouched (provider : BodyProvider)   (* the field as it came *)
| Replaced (value : Resolved).          (* overwritten with the resolved value *)

(** The block that injects the resolved directive into
    [incoming.provider].  A resolved value is truthy; it is an object or
    a function, never a string. *)
Definition injectProvider (provider : BodyProvider)
    (resolvedProvider : option Resolved) : ForwardedProvider :=
  match resolvedProvider with
  | None => Untouched provider
  | Some resolved =>
      let current :=
        match provider with
        | ProviderInline _ => Untouched provider   (* truthy and an object *)
        | _ => Replaced resolved
        end in
      match current with
      | Untouched (ProviderKey key) =>   (* [typeof ... === "string"] *)
          match indexTable providerConfigs key with
          | Some mapped => Replaced mapped
          | None => current
          end
      | _ => current
      end
  end.

(** What the [Response] constructor throws. *)
Inductive HandlerError :=
| RangeError     (* the status is not in the range 200 to 599 *)
| TypeError.     (* a body is given with a null body status *)

(** The null body statuses of the Fetch standard. *)
Definition null_body_status (status : nat) : bool :=
  (Nat.eqb status 101 || Nat.eqb status 103 || Nat.eqb status 204
   || Nat.eqb status 205 || Nat.eqb status 304)%bool.

Section Handler.

Variable Tools : Type.
Variable parse_object : string -> option ProviderConfig.

(** The decoded body of a POST request: the fields the handler reads. *)
Record OaiBody := mkOaiBody {
  b_provider : BodyProvider;
  b_stream : bool;                 (* [incoming.stream === true] *)
  b_fields : Incoming Tools;       (* model, tools and messages *)
}.

(** The same object after the handler has updated it: what is handed to
    [JSON.stringify]. *)
Record ForwardedBody := mkForwardedBody {
  fw_provider : ForwardedProvider;
  fw_stream : bool;
  fw_fields : Incoming Tools;
}.

(** The inbound request.  [req_json] is the result of [request.json()],
    [None] when it throws. *)
Record Request := mkRequest {
  req_method : string;
  req_pathname : string;           (* [url.pathname] *)
  req_search : string;             (* [url.search] *)
  req_headers : Headers;
  req_json : option OaiBody;
}.

(** The arguments of a call of [fetch]. *)
Record FetchRequest := mkFetch {
  f_url : string;
  f_method : string;
  f_headers : gmap string string;
  f_body : option ForwardedBody;
}.

(** What [fetch] resolves to.  Header names are case-insensitive and are
    kept in lower case.  [up_body] is [forwardResp.body]: [None] when it
    is [null]. *)
Record UpstreamResponse := mkUpstream {
  up_status : nat;
  up_headers : gmap string string;
  up_body : option string;
}.

(** [forwardResp.ok]: the status is in the range 200 to 299. *)
Definition up_ok (r : UpstreamResponse) : bool :=
  (Nat.leb 200 (up_status r) && Nat.leb (up_status r) 299)%bool.

(** [await forwardResp.text()]: the empty string for a null body. *)
Definition up_text (r : UpstreamResponse) : string :=
  default "" (up_body r).

Inductive ResponseBody :=
| BodyText (text : string)       (* a string read with [.text()] *)
| BodyStream (body : string)     (* [forwardResp.body], piped through *)
| BodyError (message : string).  (* [JSON.stringify({error: {message}})] *)

(** A constructed [Response]: its body ([None] for [null]), its status
    and the headers given to the constructor, names in lower case, [None]
    when none are given. *)
Record Response := mkResponse {
  r_body : option ResponseBody;
  r_status : nat;
  r_headers : option (gmap string string);
}.

(** [new Response(body, { status, headers })]: a status outside 200 to
    599 is a [RangeError]; a body that is not [null] together with a null
    body status is a [TypeError]. *)
Definition newResponse (body : option ResponseBody) (status : nat)
    (headers : option (gmap string string))
    : Result HandlerError Response :=
  if (Nat.ltb status 200 || Nat.ltb 599 status)%bool then Err RangeError
  else if (bool_decide (is_Some body) && null_body_status status)%bool
  then Err TypeError
  else Ok (mkResponse body status headers).

(** The handler up to its call of [fetch]. *)
Inductive Prepared :=
| NotMatched                                  (* [return null] *)
| InvalidJson                                 (* the 400 response *)
| ForwardGet (call : FetchRequest)
| ForwardPost (incoming : ForwardedBody) (call : FetchRequest).

Definition prepare (request : Request) (env : Env) : Prepared :=
  let pathname := req_pathname request in
  if negb (shouldHandleOai pathname (req_method request)) then NotMatched
  else if String.eqb (req_method request) "GET"
          && (String.eqb pathname OAI_MODELS_PATH
              || startsWith pathname (OAI_MODELS_PATH +:+ "/"))
  then
    let suffix := slice pathname (String.length OAI_MODELS_PATH) in
    let forwardUrl :=
      baseUrl env +:+ "/models" +:+ suffix +:+ req_search request in
    let forwardHeaders :=
      delete "Content-Type"
        (buildForwardHeaders (bearerToken (req_headers request))) in
    ForwardGet (mkFetch forwardUrl "GET" forwardHeaders None)
  else
    match req_json request with
    | None => InvalidJson
    | Some incoming =>
        let resolvedProvider :=
          resolveProviderConfig parse_object (b_provider incoming)
            (req_headers request) (OPENROUTER_DEFAULT_PROVIDER env) in
        let provider := injectProvider (b_provider incoming) resolvedProvider in
        let fields := stripForChimera (b_fields incoming) in
        let endpoint :=
          if String.eqb pathname OAI_CHAT_PATH
          then "/chat/completions" else "/responses" in
        let forwarded := mkForwardedBody provider (b_stream incoming) fields in
        ForwardPost forwarded
          (mkFetch (baseUrl env +:+ endpoint) "POST"
             (buildForwardHeaders (bearerToken (req_headers request)))
             (Some forwarded))
    end.

(** The GET branch after [fetch] has returned. *)
Definition respondGet (forwardResp : UpstreamResponse)
    : Result HandlerError Response :=
  if negb (up_ok forwardResp)
  then newResponse (Some (BodyText (up_text forwardResp)))
         (up_status forwardResp) None
  else newResponse
         match up_body forwardResp with
         | Some body => Some (BodyStream body)
         | None => None
         end
         (up_status forwardResp) (Some (up_headers forwardResp)).

(** The POST branch after [fetch] has returned. *)
Definition respondPost (incoming : ForwardedBody)
    (forwardResp : UpstreamResponse) : Result HandlerError Response :=
  if negb (up_ok forwardResp)
  then newResponse (Some (BodyText (up_text forwardResp)))
         (up_status forwardResp) None
  else
    let contentType :=
      match up_headers forwardResp !! "content-type" with
      | Some value => if truthy value then value else ""
      | None => ""
      end in
    if fw_stream incoming || includes contentType "text/event-stream" then
      let headers :=
        <["content-type" := "text/event-stream"]>
          (<["connection" := "keep-alive"]>
             (<["cache-control" := "no-cache"]> (up_headers forwardResp))) in
      newResponse
        match up_body forwardResp with
        | Some body => Some (BodyStream body)
        | None => None
        end
        (up_status forwardResp) (Some headers)
    else
      newResponse (Some (BodyText (up_text forwardResp)))
        (up_status forwardResp)
        (Some {["content-type" :=
                  if truthy contentType then contentType
                  else "application/json"]}).

(** [handleOaiIfMatch(request, env)], with [fetch] as a function of its
    arguments.  [Ok None] is [return null]; [Err] is an exception of the
    [Response] constructor, which rejects the promise. *)
Definition handleOaiIfMatch (request : Request) (env : Env)
    (fetch : FetchRequest -> UpstreamResponse)
    : Result HandlerError (option Response) :=
  match prepare request env with
  | NotMatched => Ok None
  | InvalidJson =>
      Some <$> newResponse (Some (BodyError "Invalid JSON body")) 400
                 (Some {["content-type" := "application/json"]})
  | ForwardGet call => Some <$> respondGet (fetch call)
  | ForwardPost incoming call => Some <$> respondPost incoming (fetch call)
  end.

End Handler.

Arguments mkOaiBody {Tools} b_provider b_stream b_fields.
Arguments mkForwardedBody {Tools} fw_provider fw_stream fw_fields.
Arguments fw_provider {Tools} _.
Arguments fw_stream {Tools} _.
Arguments fw_fields {Tools} _.
Arguments b_provider {Tools} _.
Arguments b_stream {Tools} _.
Arguments b_fields {Tools} _.
Arguments mkRequest {Tools} req_method req_pathname req_search req_headers req_json.
Arguments req_method {Tools} _.
Arguments req_pathname {Tools} _.
Arguments req_search {Tools} _.
Arguments req_headers {Tools} _.
Arguments req_json {Tools} _.
Arguments mkFetch {Tools} f_url f_method f_headers f_body.
Arguments f_url {Tools} _.
Arguments f_method {Tools} _.
Arguments f_headers {Tools} _.
Arguments f_body {Tools} _.
Arguments NotMatched {Tools}.
Arguments InvalidJson {Tools}.
Arguments ForwardGet {Tools} call.
Arguments ForwardPost {Tools} incoming call.
Arguments prepare {Tools} parse_object request env.
Arguments respondPost {Tools} incoming forwardResp.
Arguments handleOaiIfMatch {Tools} parse_object request env fetch.

(** The [Authorization] header sent for a token: none for the empty
    token. *)
Definition credential (token : string) : option string :=
  if truthy token then Some ("Bearer " +:+ token) else None.

(** The value starts with ["Bearer"], in any letter case, followed by a
    white-space character; [rest] is what follows that character. *)
Definition bearer_then_space (value rest : string) : Prop :=
  ∃ scheme c,
    value = scheme +:+ String c rest ∧
    match_prefix_ci "Bearer" scheme = Some "" ∧
    is_white_space c = true.

(** The call of [fetch] the handler makes, if it makes one. *)
Definition forwarded_call {Tools : Type} (prepared : Prepared Tools)
    : option (FetchRequest Tools) :=
  match prepared with
  | ForwardGet call | ForwardPost _ call => Some call
  | NotMatched | InvalidJson => None
  end.

(** ** Further instances *)

(** A well-paired exchange: a user turn, an assistant turn invoking
    tool [t1], and the answer. *)
Definition paired_exchange : list OpenAIMessage :=
  [mkMessage "user" (Text "find x") None None;
   mkMessage "assistant" Null (Some [mkToolCall "t1" "search" "{}"]) None;
   mkMessage "tool" (Text "result") None (Some "t1")].

(** An assistant turn with text whose invocation is never answered. *)
Definition unanswered_turn : OpenAIMessage :=
  mkMessage "assistant" (Text "let me look")
    (Some [mkToolCall "t9" "search" "{}"]) None.

(** A serializer that fails on one object. *)
Definition stringify_if (o : bool) : option string :=
  if o then Some "{}" else None.

(** A request on a model outside the alias table, declaring one tool. *)
Definition request_with_tool : ExampleBody :=
  mkBody "openai/gpt-4o"
    [mkAnthropicMessage "user" (StringContent "hello")]
    None None (Some [mkToolSchema "search" "Search the web" tt]) None.

(** Headers holding the given values for the two credential headers. *)
Definition credential_headers (api_key authorization : option string)
    : Headers :=
  fun name =>
    if String.eqb name "X-Api-Key" then api_key
    else if String.eqb name "Authorization" then authorization
    else None.

Definition models_request : Request unit :=
  mkRequest "GET" "/oai/v1/models/openai/gpt-4o" "?verbose=1"
    (credential_headers None (Some "bearer   sk-123")) None.

Definition chat_request : Request unit :=
  mkRequest "POST" OAI_CHAT_PATH "?debug=1"
    (credential_headers (Some "sk-key") (Some "Bearer other"))
    (Some (mkOaiBody (ProviderKey "minimax/minimax-m2") true opus_incoming)).

(** A request whose provider names a property that the table only
    inherits. *)
Definition inherited_request : Request unit :=
  mkRequest "POST" OAI_CHAT_PATH ""
    (credential_headers None None)
    (Some (mkOaiBody (ProviderKey "constructor") false opus_incoming)).

(** A request whose [Authorization] value has a tab after the scheme. *)
Definition tab_request : Request unit :=
  mkRequest "GET" OAI_MODELS_PATH ""
    (credential_headers None (Some ("Bearer" +:+ String "009" "tok"))) None.

(** A request whose [Authorization] value has no white space after the
    scheme. *)
Definition glued_request : Request unit :=
  mkRequest "GET" OAI_MODELS_PATH ""
    (credential_headers None (Some "BearerXYZ")) None.

Definition example_env : Env := mkEnv None None.

(** A forwarded body that does not ask for streaming. *)
Definition plain_forwarded : ForwardedBody unit :=
  mkForwardedBody (Untouched ProviderFalsy) false (mkIncoming None None None).

Definition upstream_json : UpstreamResponse :=
  mkUpstream 200 {["content-type" := "application/json"]} (Some "{}").

(** * Properties *)

(** ** Model aliasing *)

Lemma mapModel_scan_none x entries :
  (∀ k t, (k, t) ∈ entries → includes x k = false) →
  mapModel_scan x entries = x.
Proof.
  induction entries as [|[k t] rest IH]; intros Hno; simpl; [done|].
  rewrite (Hno k t) by left.
  apply IH. intros k' t' Hin. apply (Hno k' t'). by right.
Qed.

Lemma mapModel_scan_first x entries i k t :
  entries !! i = Some (k, t) →
  includes x k = true →
  (∀ j k' t', j < i → entries !! j = Some (k', t') → includes x k' = false) →
  mapModel_scan x entries = t.
Proof.
  revert i. induction entries as [|[k0 t0] rest IH]; intros i Hi Hk Hbefore.
  - by rewrite lookup_nil in Hi.
  - destruct i as [|i]; simpl in *.
    + injection Hi as -> ->. by rewrite Hk.
    + rewrite (Hbefore 0 k0 t0) by (done || lia).
      apply (IH i); [done..|].
      intros j k' t' Hj Hlook. apply (Hbefore (S j) k' t'); [lia|done].
Qed.

Lemma mapModel_cases x :
  mapModel x = x ∨ includes (mapModel x) "/" = true.
Proof.
  unfold mapModel. destruct (includes x "/") eqn:Hsep; [by left|].
  unfold MODEL_MAPPING; simpl.
  repeat (case_match; [by right|]). by left.
Qed.

(** C6: [mapModel] is a total function that returns its argument
    unchanged when the argument contains the separator ["/"], and also when
    the argument contains none of the keywords of the alias table;
    consequently [mapModel (mapModel x) = mapModel x] for every [x]. *)
Theorem mapModel_identity_outside_table_and_idempotent :
  (∀ x, includes x "/" = true → mapModel x = x) ∧
  (∀ x, (∀ k t, (k, t) ∈ MODEL_MAPPING → includes x k = false) →
        mapModel x = x) ∧
  (∀ x, mapModel (mapModel x) = mapModel x).
Proof.
  split; [|split].
  - intros x Hx. unfold mapModel. by rewrite Hx.
  - intros x Hno. unfold mapModel. destruct (includes x "/"); [done|].
    by apply mapModel_scan_none.
  - intros x. destruct (mapModel_cases x) as [Heq|Hns].
    + by rewrite Heq.
    + generalize dependent (mapModel x). intros y Hy.
      unfold mapModel. by rewrite Hy.
Qed.

Lemma mapModel_identity_witness :
  mapModel "custom-provider/custom-model" = "custom-provider/custom-model" ∧
  mapModel "gpt-4o-mini" = "gpt-4o-mini" ∧
  mapModel (mapModel "claude-3-opus") = mapModel "claude-3-opus".
Proof.
  destruct mapModel_identity_outside_table_and_idempotent as (Hsep & Hnone & Hidem).
  split; [|split].
  - apply Hsep. reflexivity.
  - apply Hnone. intros k t Hin.
    apply list_elem_of_In in Hin. simpl in Hin.
    destruct Hin as [Heq|[Heq|[Heq|[]]]]; injection Heq as <- <-; reflexivity.
  - apply Hidem.
Defined.

(** C7: for a name without ["/"], the entry of the ordered alias table
    (haiku, sonnet, opus) that decides is the earliest one whose keyword
    occurs in the name, whatever later keywords also occur. *)
Theorem mapModel_first_keyword_wins x i k t :
  includes x "/" = false →
  MODEL_MAPPING !! i = Some (k, t) →
  includes x k = true →
  (∀ j k' t', j < i → MODEL_MAPPING !! j = Some (k', t') →
              includes x k' = false) →
  mapModel x = t.
Proof.
  intros Hsep Hi Hk Hbefore. unfold mapModel. rewrite Hsep.
  by apply (mapModel_scan_first x MODEL_MAPPING i k t).
Qed.

Lemma mapModel_first_keyword_wins_witness :
  includes "opus-or-sonnet" "opus" = true ∧
  includes "opus-or-sonnet" "sonnet" = true ∧
  mapModel "opus-or-sonnet" = "z-ai/glm-4.6:exacto".
Proof.
  split; [reflexivity|]. split; [reflexivity|].
  apply (mapModel_first_keyword_wins "opus-or-sonnet" 1 "sonnet");
    [reflexivity..|].
  intros j k' t' Hj Hlook.
  destruct j as [|j]; [|lia].
  injection Hlook as <- <-. reflexivity.
Defined.

(** ** The tool-call consistency validator *)

Lemma has_role_true r m : has_role r m = true ↔ role m = r.
Proof. unfold has_role. apply String.eqb_eq. Qed.

Lemma has_role_false r m : has_role r m = false ↔ role m ≠ r.
Proof. unfold has_role. apply String.eqb_neq. Qed.

Lemma assistantCalls_Some m calls :
  assistantCalls m = Some calls ↔
  role m = "assistant" ∧ tool_calls m = Some calls.
Proof.
  unfold assistantCalls. destruct (has_role "assistant" m) eqn:Hr.
  - apply has_role_true in Hr. naive_solver.
  - apply has_role_false in Hr. naive_solver.
Qed.

Lemma assistantCalls_not_tool m calls :
  assistantCalls m = Some calls → has_role "tool" m = false.
Proof.
  intros [Hr _]%assistantCalls_Some. apply has_role_false. by rewrite Hr.
Qed.

Lemma tool_no_assistantCalls m :
  has_role "tool" m = true → assistantCalls m = None.
Proof.
  intros Ht. destruct (assistantCalls m) eqn:Hc; [|done].
  apply assistantCalls_not_tool in Hc. congruence.
Qed.

(** What the [Map] built from the following tool messages contains. *)
Lemma toolMessageMap_has run k :
  is_Some (toolMessageMap run !! k) ↔
  ∃ t, t ∈ run ∧ tool_call_id t = Some k ∧ truthy k = true.
Proof.
  unfold toolMessageMap.
  assert (Hgen : ∀ (acc : gmap string OpenAIMessage),
    is_Some (foldl (fun acc toolMsg =>
           match tool_call_id toolMsg with
           | Some k => if truthy k then <[k := toolMsg]> acc else acc
           | None => acc
           end) acc run !! k) ↔
    is_Some (acc !! k) ∨
    ∃ t, t ∈ run ∧ tool_call_id t = Some k ∧ truthy k = true).
  { induction run as [|m run IH]; intros acc; simpl.
    - split; [by left|]. intros [?|(t & Ht & _)]; [done|].
      by apply not_elem_of_nil in Ht.
    - rewrite IH. split.
      + intros [Hacc|(t & Ht & Hid & Hk)].
        * destruct (tool_call_id m) as [k'|] eqn:Hm; [|by left].
          destruct (truthy k') eqn:Hk'; [|by left].
          destruct (decide (k' = k)) as [->|Hne].
          -- right. exists m. split; [left|done].
          -- rewrite lookup_insert_ne in Hacc by done. by left.
        * right. exists t. split; [by right|done].
      + intros [Hacc|(t & Ht & Hid & Hk)].
        * left. destruct (tool_call_id m) as [k'|]; [|done].
          destruct (truthy k'); [|done].
          destruct (decide (k' = k)) as [->|Hne].
          -- rewrite lookup_insert_eq. by eexists.
          -- by rewrite lookup_insert_ne.
        * apply elem_of_cons in Ht as [->|Ht].
          -- left. rewrite Hid, Hk, lookup_insert_eq. by eexists.
          -- right. by exists t. }
  rewrite Hgen. rewrite lookup_empty. split.
  - intros [[? ?]|?]; [done|done].
  - by right.
Qed.

Lemma idMatches_true calls t :
  idMatches calls t = true ↔
  ∃ call, call ∈ calls ∧ tool_call_id t = Some (call_id call) ∧
          truthy (call_id call) = true.
Proof.
  unfold idMatches, toolCallIds.
  destruct (tool_call_id t) as [k|]; [|naive_solver].
  destruct (truthy k) eqn:Hk.
  - rewrite bool_decide_eq_true, elem_of_list_to_set, list_elem_of_fmap.
    split.
    + intros (call & -> & Hin). by exists call.
    + intros (call & Hin & [= ->] & _). by exists call.
  - split; [done|]. intros (call & _ & [= ->] & Hk'). congruence.
Qed.

Lemma keeps_true cand t :
  keeps cand t = true ↔
  ∃ c calls call, cand = Some c ∧ assistantCalls c = Some calls ∧
    call ∈ calls ∧ tool_call_id t = Some (call_id call) ∧
    truthy (call_id call) = true.
Proof.
  unfold keeps. destruct cand as [c|].
  - destruct (assistantCalls c) as [calls|] eqn:Hc.
    + rewrite idMatches_true. split.
      * intros (call & Hin & Hid & Hk). exists c, calls, call.
        repeat split; assumption || reflexivity.
      * intros (c' & calls' & call & [= <-] & Hc' & Hin & Hid & Hk).
        rewrite Hc in Hc'. injection Hc' as <-. by exists call.
    + split; [done|].
      intros (c' & calls' & call & [= <-] & Hc' & _). congruence.
  - split; [done|]. by intros (c' & calls' & call & ? & _).
Qed.

(** The invocations that survive in front of [following]. *)
Lemma validToolCalls_spec (calls : list OpenAIToolCall) following call :
  call ∈ filter (fun c => is_Some
           (toolMessageMap (immediateToolMessages following) !! call_id c))
         calls ↔
  call ∈ calls ∧
  ∃ t, t ∈ immediateToolMessages following ∧
       tool_call_id t = Some (call_id call) ∧ truthy (call_id call) = true.
Proof. rewrite list_elem_of_filter, toolMessageMap_has. tauto. Qed.

Lemma hasImmediateToolCall_nearest before t :
  hasImmediateToolCall before t = keeps (precedingNonTool before) t.
Proof.
  assert (Hwalk : ∀ l, walkBack l t = keeps (precedingNonTool l) t).
  { induction l as [|c l IH]; simpl; [done|].
    destruct (has_role "tool" c); [done|]. reflexivity. }
  destruct before as [|prev earlier]; [done|].
  unfold hasImmediateToolCall.
  destruct (assistantCalls prev) as [calls|] eqn:Hc.
  - simpl. rewrite (assistantCalls_not_tool _ _ Hc). simpl. by rewrite Hc.
  - destruct (has_role "tool" prev) eqn:Ht.
    + apply Hwalk.
    + simpl. rewrite Ht. simpl. by rewrite Hc.
Qed.

Lemma validateStep_tool before m rest :
  has_role "tool" m = true →
  validateStep before m rest =
    if keeps (precedingNonTool before) m then [m] else [].
Proof.
  intros Ht. unfold validateStep.
  rewrite (tool_no_assistantCalls _ Ht), Ht.
  by rewrite hasImmediateToolCall_nearest.
Qed.

Lemma validateStep_non_tool before m rest :
  has_role "tool" m = false →
  validateStep before m rest = validateStep [] m rest.
Proof.
  intros Ht. unfold validateStep.
  destruct (assistantCalls m); [done|]. by rewrite Ht.
Qed.

Lemma validateLoop_loopFrom before following :
  validateLoop before following = loopFrom (precedingNonTool before) following.
Proof.
  revert before. induction following as [|m rest IH]; intros before; [done|].
  simpl. rewrite IH. simpl.
  destruct (has_role "tool" m) eqn:Ht.
  - by rewrite (validateStep_tool _ _ _ Ht).
  - by rewrite (validateStep_non_tool _ _ _ Ht).
Qed.

Lemma validate_as_loopFrom ms :
  validateOpenAIToolCalls ms = loopFrom None ms.
Proof. apply validateLoop_loopFrom. Qed.

(** What one iteration does with a non-tool message: it is dropped, and
    then no tool message after it is kept; or one message is pushed, with
    the same role, content and [tool_call_id], whose invocations are
    exactly the answered ones. *)
Lemma validateStep_head m rest :
  has_role "tool" m = false →
  (validateStep [] m rest = [] ∧
   ∀ t, t ∈ immediateToolMessages rest → keeps (Some m) t = false) ∨
  (∃ m', validateStep [] m rest = [m'] ∧
     role m' = role m ∧ content m' = content m ∧
     tool_call_id m' = tool_call_id m ∧
     (role m = "assistant" →
      ∀ call, call ∈ invocations m' ↔
        call ∈ invocations m ∧
        ∃ t, t ∈ immediateToolMessages rest ∧
             tool_call_id t = Some (call_id call) ∧
             truthy (call_id call) = true) ∧
     (role m ≠ "assistant" → m' = m)).
Proof.
  intros Ht. unfold validateStep.
  destruct (assistantCalls m) as [calls|] eqn:Hc.
  - apply assistantCalls_Some in Hc as Hc'. destruct Hc' as [Hr Htc].
    unfold validateAssistant.
    set (valid := filter _ calls).
    assert (Hvalid : ∀ call, call ∈ valid ↔
      call ∈ calls ∧ ∃ t, t ∈ immediateToolMessages rest ∧
        tool_call_id t = Some (call_id call) ∧ truthy (call_id call) = true)
      by (intros call; apply validToolCalls_spec).
    destruct valid as [|v valid'] eqn:Hv; simpl.
    + destruct (content_truthy (content m)) eqn:Hct; simpl.
      * right. eexists. split; [done|]. simpl. split_and!; try done.
        intros _ call. unfold invocations at 1; simpl. split.
        -- intros Hin. by apply not_elem_of_nil in Hin.
        -- intros [Hin Hex]. unfold invocations in Hin. rewrite Htc in Hin.
           simpl in Hin. exfalso. eapply not_elem_of_nil. apply Hvalid. eauto.
      * left. split; [done|]. intros t Hin.
        destruct (keeps (Some m) t) eqn:Hk; [|done]. exfalso.
        apply keeps_true in Hk
          as (c & calls' & call & [= <-] & Hc2 & Hin' & Hid & Htr).
        rewrite Hc in Hc2. injection Hc2 as <-.
        eapply not_elem_of_nil. apply Hvalid. eauto.
    + rewrite orb_true_r. right. eexists. split; [done|]. simpl.
      split_and!; try done.
      intros _ call. unfold invocations; simpl. rewrite Htc; simpl.
      apply Hvalid.
  - rewrite Ht. right. exists m. split_and!; try done.
    intros Hr call. unfold assistantCalls in Hc.
    rewrite (proj2 (has_role_true _ _) Hr) in Hc.
    unfold invocations. rewrite Hc. simpl. split.
    + intros Hin. by apply not_elem_of_nil in Hin.
    + intros [Hin _]. done.
Qed.

(** A tool message of the following run that is kept shows up in the run
    that opens the output. *)
Lemma kept_in_output_run cand following t :
  t ∈ immediateToolMessages following →
  keeps cand t = true →
  t ∈ immediateToolMessages (loopFrom cand following).
Proof.
  induction following as [|m rest IH]; simpl; intros Hin Hk.
  - by apply not_elem_of_nil in Hin.
  - destruct (has_role "tool" m) eqn:Ht.
    + destruct (keeps cand m) eqn:Hm; simpl.
      * rewrite Ht. apply elem_of_cons in Hin as [->|Hin]; [left|].
        right. by apply IH.
      * apply elem_of_cons in Hin as [->|Hin]; [congruence|]. by apply IH.
    + by apply not_elem_of_nil in Hin.
Qed.

Lemma immediateToolMessages_tools following t :
  t ∈ immediateToolMessages following → has_role "tool" t = true.
Proof.
  induction following as [|m rest IH]; simpl; intros Hin.
  - by apply not_elem_of_nil in Hin.
  - destruct (has_role "tool" m) eqn:Ht.
    + apply elem_of_cons in Hin as [->|Hin]; [done|]. by apply IH.
    + by apply not_elem_of_nil in Hin.
Qed.

(** The invariant holds along the output of the loop, provided the
    nearest preceding non-tool message of the output answers for every
    tool message of the current run that the loop is going to keep. *)
Lemma paired_loopFrom following : ∀ cand cand',
  (∀ t, t ∈ immediateToolMessages following → keeps cand t = true →
        ∃ a, cand' = Some a ∧ answers t a) →
  paired cand' (loopFrom cand following).
Proof.
  induction following as [|m rest IH]; intros cand cand' Hrel; [done|].
  simpl. simpl in Hrel. destruct (has_role "tool" m) eqn:Ht.
  - assert (Hrest : paired cand' (loopFrom cand rest)).
    { apply IH. intros t Hin Hk. apply Hrel; [by right|done]. }
    destruct (keeps cand m) eqn:Hm; simpl; [|done].
    rewrite Ht. split; [|done]. apply Hrel; [left|done].
  - destruct (validateStep_head m rest Ht)
      as [[-> Hnone]|(m' & -> & Hrole & Hcont & Hid & Hinv & Hsame)]; simpl.
    + apply IH. intros t Hin Hk. rewrite Hnone in Hk; done.
    + assert (Ht' : has_role "tool" m' = false).
      { apply has_role_false. rewrite Hrole. by apply has_role_false. }
      rewrite Ht'. split.
      * intros Hr call Hcall. rewrite Hrole in Hr.
        apply (Hinv Hr) in Hcall as (Hcall & t & Hin & Htid & Htr).
        exists t. split; [|done].
        apply kept_in_output_run; [done|].
        apply keeps_true.
        assert (Hac : ∃ calls, assistantCalls m = Some calls ∧ call ∈ calls).
        { unfold invocations in Hcall. unfold assistantCalls.
          rewrite (proj2 (has_role_true _ _) Hr).
          destruct (tool_calls m) as [calls|]; [by exists calls|].
          by apply not_elem_of_nil in Hcall. }
        destruct Hac as (calls & Hac & Hcin).
        exists m, calls, call. repeat split; assumption || reflexivity.
      * apply IH. intros t Hin Hk. exists m'. split; [done|].
        apply keeps_true in Hk
          as (c & calls & call & [= <-] & Hc & Hcin & Htid & Htr).
        apply assistantCalls_Some in Hc as [Hr Htc].
        split; [congruence|]. exists call. split; [|done].
        apply (Hinv Hr). split.
        -- unfold invocations. by rewrite Htc.
        -- by exists t.
Qed.

Lemma precedingNonTool_app pre : ∀ before,
  precedingNonTool (reverse pre ++ before) =
  foldl (fun c m => if has_role "tool" m then c else Some m)
        (precedingNonTool before) pre.
Proof.
  induction pre as [|m pre IH]; intros before; [done|].
  rewrite reverse_cons, <- app_assoc. simpl. rewrite IH. simpl.
  by destruct (has_role "tool" m).
Qed.

Lemma paired_split out : ∀ cand pre x post,
  paired cand out →
  out = pre ++ x :: post →
  let near := foldl (fun c m => if has_role "tool" m then c else Some m)
                    cand pre in
  (role x = "tool" → ∃ a, near = Some a ∧ answers x a) ∧
  (role x = "assistant" → ∀ call, call ∈ invocations x →
     ∃ t, t ∈ immediateToolMessages post ∧
          tool_call_id t = Some (call_id call)).
Proof.
  induction out as [|m rest IH]; intros cand pre x post Hp Heq.
  - by destruct pre.
  - destruct pre as [|p pre]; simpl in Heq; injection Heq as Hm Hrest.
    + subst m rest. simpl. simpl in Hp. destruct (has_role "tool" x) eqn:Ht.
      * split; [intros _; apply Hp|].
        intros Hr. apply has_role_true in Ht. congruence.
      * split; [|apply Hp].
        intros Hr. apply has_role_false in Ht. congruence.
    + subst p. simpl. simpl in Hp. destruct (has_role "tool" m) eqn:Ht.
      * apply (IH cand pre x post); [apply Hp|done].
      * apply (IH (Some m) pre x post); [apply Hp|done].
Qed.

Lemma validateStep_trims before m rest :
  validateStep before m rest = [] ∨
  ∃ m', validateStep before m rest = [m'] ∧ trimmed_copy m m'.
Proof.
  unfold validateStep. destruct (assistantCalls m) as [calls|] eqn:Hc.
  - apply assistantCalls_Some in Hc as [Hr Htc]. unfold validateAssistant.
    pose proof (sublist_filter
      (fun c => is_Some
         (toolMessageMap (immediateToolMessages rest) !! call_id c)) calls)
      as Hsub.
    destruct (filter _ calls) as [|v valid]; simpl.
    + destruct (content_truthy (content m)); simpl; [|by left].
      right. eexists. split; [done|]. split_and!; try done.
      unfold invocations; simpl. apply sublist_nil_l.
    + rewrite orb_true_r. right. eexists. split; [done|].
      split_and!; try done. unfold invocations; simpl. by rewrite Htc.
  - assert (Hself : trimmed_copy m m) by (by split_and!).
    destruct (has_role "tool" m); [destruct (hasImmediateToolCall before m)|];
      (by left) || (right; by exists m).
Qed.

Lemma validateLoop_drawn_from following : ∀ before,
  drawn_from following (validateLoop before following).
Proof.
  induction following as [|m rest IH]; intros before; simpl.
  - exists []. split; [done|constructor].
  - destruct (IH (m :: before)) as (kept & Hsub & Hall).
    destruct (validateStep_trims before m rest) as [->|(m' & -> & Hm)]; simpl.
    + exists kept. split; [by apply sublist_cons|done].
    + exists (m :: kept). split; [by apply sublist_skip|by constructor].
Qed.

(** C2: in the output of the validator, every invocation carried by an
    assistant message is the [tool_call_id] of a tool message in the
    maximal run of tool messages right after it, and every tool message
    answers an invocation of the nearest preceding non-tool message, which
    is an assistant message.  The validator is a total function to lists:
    it raises nothing, and its output is the input with messages left out
    and invocations left out. *)
Theorem validateOpenAIToolCalls_no_orphans (ms : list OpenAIMessage) :
  invocations_answered (validateOpenAIToolCalls ms) ∧
  results_anchored (validateOpenAIToolCalls ms) ∧
  drawn_from ms (validateOpenAIToolCalls ms).
Proof.
  assert (Hp : paired None (validateOpenAIToolCalls ms)).
  { rewrite validate_as_loopFrom. apply paired_loopFrom.
    intros t _ Hk. done. }
  split_and!.
  - intros pre a post call Heq Hr Hcall.
    destruct (paired_split _ None pre a post Hp Heq) as [_ H2]. by apply H2.
  - intros pre t post Heq Hr.
    destruct (paired_split _ None pre t post Hp Heq) as [H1 _].
    rewrite <- (app_nil_r (reverse pre)), precedingNonTool_app. by apply H1.
  - apply validateLoop_drawn_from.
Qed.

(** ** Idempotence of the validator *)

Lemma filter_all {A} (P : A → Prop) `{!∀ x, Decision (P x)} (l : list A) :
  (∀ x, x ∈ l → P x) → filter P l = l.
Proof.
  induction l as [|x l IH]; intros Hall; [done|].
  rewrite filter_cons_True by (apply Hall; left).
  f_equal. apply IH. intros y Hy. apply Hall. by right.
Qed.

(** A message the validator has pushed is pushed again as it is, as long
    as the tool messages that answered it are still right behind it. *)
Lemma validateStep_stable m rest m' rest' :
  has_role "tool" m = false →
  validateStep [] m rest = [m'] →
  (∀ t, t ∈ immediateToolMessages rest → keeps (Some m) t = true →
        t ∈ immediateToolMessages rest') →
  validateStep [] m' rest' = [m'].
Proof.
  intros Ht Hstep Hrun. unfold validateStep in Hstep.
  destruct (assistantCalls m) as [calls|] eqn:Hc.
  - apply assistantCalls_Some in Hc as Hc'. destruct Hc' as [Hr Htc].
    unfold validateAssistant in Hstep.
    pose proof (validToolCalls_spec calls rest) as Hvalid.
    destruct (filter _ calls) as [|v valid'] eqn:Hv; simpl in Hstep.
    + destruct (content_truthy (content m)); simpl in Hstep; [|done].
      injection Hstep as <-. unfold validateStep, assistantCalls. simpl.
      destruct (has_role "assistant" _); (unfold has_role in *; simpl; by rewrite Ht).
    + rewrite orb_true_r in Hstep. injection Hstep as <-.
      unfold validateStep.
      assert (Hac : assistantCalls (set_tool_calls (Some (v :: valid')) m)
                    = Some (v :: valid')).
      { apply assistantCalls_Some. by split. }
      rewrite Hac. unfold validateAssistant.
      rewrite filter_all; [simpl; by rewrite orb_true_r|].
      intros call Hin. apply Hvalid in Hin as (Hin & t & Hrun' & Hid & Htr).
      apply toolMessageMap_has. exists t. split; [|done].
      apply Hrun; [done|]. apply keeps_true.
      exists m, calls, call. repeat split; assumption || reflexivity.
  - rewrite Ht in Hstep. injection Hstep as <-.
    unfold validateStep. by rewrite Hc, Ht.
Qed.

Lemma loopFrom_idempotent following : ∀ cand cand',
  (∀ t, t ∈ immediateToolMessages following → keeps cand t = true →
        keeps cand' t = true) →
  loopFrom cand' (loopFrom cand following) = loopFrom cand following.
Proof.
  induction following as [|m rest IH]; intros cand cand' Hrel; [done|].
  simpl. simpl in Hrel. destruct (has_role "tool" m) eqn:Ht.
  - assert (Hrest : loopFrom cand' (loopFrom cand rest) = loopFrom cand rest).
    { apply IH. intros t Hin Hk. apply Hrel; [by right|done]. }
    destruct (keeps cand m) eqn:Hm; simpl; [|done].
    rewrite Ht, (Hrel m) by (left || done). simpl. by rewrite Hrest.
  - destruct (validateStep_head m rest Ht)
      as [[Hstep Hnone]|(m' & Hstep & Hrole & Hcont & Hid & Hinv & Hsame)];
      rewrite Hstep; simpl.
    + apply IH. intros t Hin Hk. rewrite Hnone in Hk; done.
    + assert (Ht' : has_role "tool" m' = false).
      { apply has_role_false. rewrite Hrole. by apply has_role_false. }
      rewrite Ht'.
      rewrite (validateStep_stable m rest m' _ Ht Hstep)
        by (intros t Hin Hk; by apply kept_in_output_run).
      simpl. f_equal. apply IH. intros t Hin Hk.
      apply keeps_true in Hk
        as (c & calls & call & [= <-] & Hc & Hcin & Htid & Htr).
      apply assistantCalls_Some in Hc as [Hr Htc].
      assert (Hcall : call ∈ invocations m').
      { apply (Hinv Hr). split; [unfold invocations; by rewrite Htc|].
        by exists t. }
      apply keeps_true. unfold invocations in Hcall.
      destruct (tool_calls m') as [calls'|] eqn:Htc'; simpl in Hcall;
        [|by apply not_elem_of_nil in Hcall].
      exists m', calls', call. repeat split; try (assumption || reflexivity).
      apply assistantCalls_Some. split; congruence.
Qed.

(** C10: running the validator on its own output changes nothing. *)
Theorem validateOpenAIToolCalls_idempotent (ms : list OpenAIMessage) :
  validateOpenAIToolCalls (validateOpenAIToolCalls ms)
  = validateOpenAIToolCalls ms.
Proof.
  rewrite !validate_as_loopFrom. apply loopFrom_idempotent.
  intros t _ Hk. done.
Qed.

(** ** The format translator *)

Section TranslatorProperties.

Context {JsonObject Number : Type}.
Variable json_stringify : JsonObject → option string.

Abbreviation Body := (MessageCreateParamsBase JsonObject Number).
Abbreviation format := (formatAnthropicToOpenAI json_stringify).

Lemma system_entries_app (l1 l2 : list PayloadMessage) :
  system_entries (l1 ++ l2) = system_entries l1 ++ system_entries l2.
Proof. apply omap_app. Qed.

Lemma system_entries_system (l : list SystemMessage) :
  system_entries (SystemEntry <$> l) = l.
Proof.
  induction l as [|m l IH]; [done|].
  change (m :: system_entries (SystemEntry <$> l) = m :: l). by f_equal.
Qed.

Lemma system_entries_chat (l : list OpenAIMessage) :
  system_entries (ChatEntry <$> l) = [].
Proof. induction l as [|m l IH]; [done|]. exact IH. Qed.

Lemma system_entries_strip (l : list PayloadMessage) :
  system_entries (omap stripToolData l) = system_entries l.
Proof.
  induction l as [|[m|m] l IH]; [done|..].
  - change (m :: system_entries (omap stripToolData l)
            = m :: system_entries l). by f_equal.
  - change (system_entries (ChatEntry m :: l)) with (system_entries l).
    change (omap stripToolData (ChatEntry m :: l))
      with (match stripToolData (ChatEntry m) with
            | Some e' => e' :: omap stripToolData l
            | None => omap stripToolData l
            end).
    unfold stripToolData at 1.
    destruct (assistantCalls m); [exact IH|].
    destruct (has_role "tool" m); exact IH.
Qed.

(** The translator either fails, or returns the payload assembled from
    the converted messages. *)
Lemma format_Ok (body : Body) out :
  format body = Ok out →
  truthy (model body) = true ∧
  validateMessages 0 (messages body) = Ok tt ∧
  ∃ openAIMessages,
    flatMapMessages _ json_stringify (messages body) = Ok openAIMessages ∧
    p_model out = mapModel (model body) ∧
    p_tools out =
      match tools body with
      | Some tools =>
          if String.eqb (mapModel (model body)) CHIMERA then None
          else Some (convertTool _ <$> tools)
      | None => None
      end ∧
    p_messages out =
      let systemMessages :=
        SystemEntry <$> systemMessages (model body)
                          (systemOrDefault (system body)) in
      if String.eqb (mapModel (model body)) CHIMERA
      then omap stripToolData (systemMessages ++ (ChatEntry <$> openAIMessages))
      else systemMessages
             ++ (ChatEntry <$> validateOpenAIToolCalls openAIMessages).
Proof.
  unfold formatAnthropicToOpenAI.
  destruct (truthy (model body)); simpl; [|done].
  destruct (validateMessages 0 (messages body)) as [[]|e]; simpl; [|done].
  destruct (flatMapMessages _ json_stringify (messages body))
    as [openAIMessages|e]; simpl; [|done].
  intros [= <-]. simpl. split_and!; try done. by exists openAIMessages.
Qed.

Lemma format_system_entries (body : Body) out :
  format body = Ok out →
  system_entries (p_messages out) =
    systemMessages (model body) (systemOrDefault (system body)).
Proof.
  intros (_ & _ & msgs & _ & _ & _ & ->)%format_Ok. cbv zeta.
  destruct (String.eqb _ CHIMERA).
  - by rewrite system_entries_strip, system_entries_app,
      system_entries_system, system_entries_chat, app_nil_r.
  - by rewrite system_entries_app,
      system_entries_system, system_entries_chat, app_nil_r.
Qed.

(** *** System messages *)

Lemma strip_system_entries (l : list SystemMessage) :
  omap stripToolData (SystemEntry <$> l) = SystemEntry <$> l.
Proof.
  induction l as [|m l IH]; [done|].
  change (SystemEntry m :: omap stripToolData (SystemEntry <$> l)
          = SystemEntry m :: (SystemEntry <$> l)). by f_equal.
Qed.

Lemma strip_chat_entries (l : list OpenAIMessage) :
  ∃ chat, omap stripToolData (ChatEntry <$> l) = ChatEntry <$> chat.
Proof.
  induction l as [|m l [chat IH]]; [by exists []|].
  change (omap stripToolData (ChatEntry <$> m :: l))
    with (match stripToolData (ChatEntry m) with
          | Some e' => e' :: omap stripToolData (ChatEntry <$> l)
          | None => omap stripToolData (ChatEntry <$> l)
          end).
  rewrite IH. unfold stripToolData.
  destruct (assistantCalls m); [by eexists (_ :: chat)|].
  destruct (has_role "tool" m); [by exists chat|by exists (m :: chat)].
Qed.

(** C5 (amended): the payload's messages are the system messages built
    from the system prompt followed by chat messages.  A system prompt
    given as a sequence of segments yields one system message per segment,
    in order, each with exactly one text part carrying that segment's
    text; a system prompt given as a string, the empty string included,
    yields exactly one system message with one part carrying the string;
    an absent system prompt takes the default of the empty sequence and
    yields no system message. *)
Theorem system_prompt_to_system_messages (body : Body) out :
  format body = Ok out →
  (∃ chat, p_messages out =
           (SystemEntry <$> system_entries (p_messages out))
           ++ (ChatEntry <$> chat)) ∧
  match system body with
  | Some (SystemSegments segments) =>
      Forall2 (fun segment m =>
                 ∃ marker, sys_content m = [mkSystemPart segment marker])
              segments (system_entries (p_messages out))
  | Some (SystemString s) =>
      ∃ marker, system_entries (p_messages out)
                = [mkSystemMessage [mkSystemPart s marker]]
  | None => system_entries (p_messages out) = []
  end.
Proof.
  intros Hok. pose proof (format_system_entries body out Hok) as Hsys.
  split.
  - rewrite Hsys.
    apply format_Ok in Hok as (_ & _ & msgs & _ & _ & _ & ->). cbv zeta.
    destruct (String.eqb _ CHIMERA); [|by eexists].
    rewrite omap_app, strip_system_entries.
    destruct (strip_chat_entries msgs) as [chat ->]. by exists chat.
  - rewrite Hsys. clear Hsys Hok.
    destruct (system body) as [[s|segments]|]; simpl.
    + by eexists.
    + induction segments as [|seg segments IH]; [constructor|].
      rewrite fmap_cons. constructor; [by eexists|exact IH].
    + done.
Qed.

(** C4 (amended): every system text part of the payload carries the
    ephemeral-cache marker if and only if the model name of the request,
    before aliasing, contains ["claude"]; and with or without the marker
    the parts carry exactly the texts of the source system prompt. *)
Theorem cache_marker_follows_request_model (body : Body) out :
  format body = Ok out →
  (∀ m part, m ∈ system_entries (p_messages out) → part ∈ sys_content m →
     (cache_control part = Some Ephemeral ↔
      includes (model body) "claude" = true)) ∧
  system_part_texts (p_messages out) = prompt_texts (system body).
Proof.
  intros Hsys%format_system_entries. unfold system_part_texts.
  rewrite Hsys. clear Hsys.
  assert (Hmark : cacheMarker (model body) = Some Ephemeral ↔
                  includes (model body) "claude" = true).
  { unfold cacheMarker. by destruct (includes (model body) "claude"). }
  destruct (system body) as [[s|segments]|]; simpl.
  - split; [|done]. intros m part ->%list_elem_of_singleton.
    simpl. by intros ->%list_elem_of_singleton.
  - split.
    + intros m part (seg & -> & _)%list_elem_of_fmap. simpl.
      by intros ->%list_elem_of_singleton.
    + induction segments as [|seg segments IH]; [done|].
      rewrite !fmap_cons. simpl. by f_equal.
  - split; [|done]. intros m part Hin. by apply not_elem_of_nil in Hin.
Qed.

(** *** Chimera stripping *)

Lemma stripToolData_chat e m :
  stripToolData e = Some (ChatEntry m) →
  role m ≠ "tool" ∧ (role m = "assistant" → tool_calls m = None).
Proof.
  destruct e as [sm|m0]; simpl; [done|].
  destruct (assistantCalls m0) as [calls|] eqn:Hc.
  - intros [= <-]. simpl. apply assistantCalls_Some in Hc as [Hr _].
    split; [by rewrite Hr|done].
  - destruct (has_role "tool" m0) eqn:Ht; [done|]. intros [= <-].
    split; [by apply has_role_false|].
    intros Hr. unfold assistantCalls in Hc.
    by rewrite (proj2 (has_role_true _ _) Hr) in Hc.
Qed.

Lemma stripIncomingMessage_Some m0 m :
  stripIncomingMessage m0 = Some m →
  role m ≠ "tool" ∧ (role m = "assistant" → tool_calls m = None).
Proof.
  unfold stripIncomingMessage.
  destruct (has_role "tool" m0) eqn:Ht; [done|].
  destruct (assistantCalls m0) as [calls|] eqn:Hc.
  - intros [= <-]. simpl. apply assistantCalls_Some in Hc as [Hr _].
    split; [by rewrite Hr|done].
  - intros [= <-]. split; [by apply has_role_false|].
    intros Hr. unfold assistantCalls in Hc.
    by rewrite (proj2 (has_role_true _ _) Hr) in Hc.
Qed.

(** C3: when the model name aliases to the Chimera target, the payload
    returned by the translator has no [tools] field, none of its messages
    has role [tool], and none of its assistant messages has a [tool_calls]
    field, whatever tool declarations and invocations the request holds.
    The forwarding layer strips an incoming body in the same way. *)
Theorem chimera_payload_has_no_tool_data :
  (∀ (body : Body) out,
     format body = Ok out →
     mapModel (model body) = CHIMERA →
     p_tools out = None ∧
     ∀ m, ChatEntry m ∈ p_messages out →
          role m ≠ "tool" ∧ (role m = "assistant" → tool_calls m = None)) ∧
  (∀ (Tools : Type) (incoming : Incoming Tools) name,
     in_model incoming = Some name →
     mapModel name = CHIMERA →
     in_tools (stripForChimera incoming) = None ∧
     ∀ msgs m, in_messages (stripForChimera incoming) = Some msgs →
               m ∈ msgs →
               role m ≠ "tool" ∧ (role m = "assistant" → tool_calls m = None)).
Proof.
  split.
  - intros body out (_ & _ & msgs & _ & _ & Htools & Hmsgs)%format_Ok Hch.
    rewrite Hch in Htools, Hmsgs. simpl in Htools, Hmsgs. split.
    + rewrite Htools. by destruct (tools body).
    + intros m Hin. rewrite Hmsgs in Hin.
      apply list_elem_of_omap in Hin as (e & _ & He).
      by apply (stripToolData_chat e).
  - intros Tools incoming name Hname Hch. unfold stripForChimera.
    rewrite Hname, Hch. simpl. split; [done|].
    intros msgs m Hmsgs Hin.
    destruct (in_messages incoming) as [msgs0|]; [|done].
    injection Hmsgs as <-.
    apply list_elem_of_omap in Hin as (m0 & _ & Hm0).
    by apply (stripIncomingMessage_Some m0).
Qed.

(** *** Validation *)

Lemma validateParts_rejects (parts : list (AnthropicContentPart JsonObject))
    part :
  part ∈ parts →
  (∀ index, ∃ e, validatePart index part = Err e) →
  ∀ index, ∃ e, validateParts index parts = Err e.
Proof.
  intros Hin Hbad. induction parts as [|p parts IH]; intros index.
  - by apply not_elem_of_nil in Hin.
  - simpl. apply elem_of_cons in Hin as [<-|Hin].
    + destruct (Hbad index) as [e ->]. by exists e.
    + destruct (validatePart index p) as [[]|e]; [|by exists e].
      by apply IH.
Qed.

Lemma validateMessages_rejects (msgs : list (AnthropicMessage JsonObject))
    message :
  message ∈ msgs →
  (∃ e, validateAnthropicMessage message = Err e) →
  ∀ index, ∃ i e, validateMessages index msgs = Err (InvalidMessage i e).
Proof.
  intros Hin [e0 Hbad]. induction msgs as [|m msgs IH]; intros index.
  - by apply not_elem_of_nil in Hin.
  - simpl. apply elem_of_cons in Hin as [<-|Hin].
    + rewrite Hbad. by exists index, e0.
    + destruct (validateAnthropicMessage m) as [[]|e]; [|by exists index, e].
      by apply IH.
Qed.

Lemma validateMessages_accepts (msgs : list (AnthropicMessage JsonObject)) :
  ∀ index message,
    validateMessages index msgs = Ok tt →
    message ∈ msgs →
    validateAnthropicMessage message = Ok tt.
Proof.
  induction msgs as [|m msgs IH]; intros index message Hok Hin.
  - by apply not_elem_of_nil in Hin.
  - simpl in Hok.
    destruct (validateAnthropicMessage m) as [[]|e] eqn:Hm; [|done].
    apply elem_of_cons in Hin as [->|Hin]; [done|]. by apply (IH (S index)).
Qed.

Lemma empty_content_invalid (message : AnthropicMessage JsonObject) :
  has_empty_content message →
  ∃ e, validateAnthropicMessage message = Err e.
Proof.
  unfold validateAnthropicMessage.
  intros [Hs|(parts & tid & Hp & Hin)].
  - rewrite Hs. destruct (truthy (a_role message)); simpl; by eexists.
  - rewrite Hp. destruct (truthy (a_role message)); simpl; [|by eexists].
    apply (validateParts_rejects parts _ Hin).
    intros index. simpl. destruct (truthy tid); simpl; by eexists.
Qed.

(** C9: a conversation that holds a message whose content is the empty
    string, or a tool-result part whose content is the empty string, is
    rejected by the translator with a structural input error: presence of
    these fields is tested by truthiness. *)
Theorem empty_content_is_structural_error (body : Body) message :
  message ∈ messages body →
  has_empty_content message →
  ∃ e, format body = Err e ∧ is_structural e = true.
Proof.
  intros Hin Hbad%empty_content_invalid.
  unfold formatAnthropicToOpenAI.
  destruct (truthy (model body)); simpl; [|by eexists].
  destruct (validateMessages_rejects _ _ Hin Hbad 0) as (i & e & ->).
  simpl. by eexists.
Qed.

(** *** No uninformative assistant message outside the Chimera path *)

Lemma userParts_roles (parts : list (AnthropicContentPart JsonObject)) :
  ∀ text acc text' out,
    userParts _ json_stringify parts text acc = Ok (text', out) →
    Forall (fun m => role m = "tool") acc →
    Forall (fun m => role m = "tool") out.
Proof.
  induction parts as [|part parts IH]; intros text acc text' out; simpl.
  - by intros [= _ <-].
  - destruct part as [t|id nm input|tid c|ty]; try apply IH.
    destruct c as [s|o]; simpl.
    + intros Hok Hacc. apply (IH _ _ _ _ Hok).
      apply Forall_app. split; [done|]. by constructor.
    + destruct (safeJsonStringify _ json_stringify o _) as [s|e]; simpl;
        [|done].
      intros Hok Hacc. apply (IH _ _ _ _ Hok).
      apply Forall_app. split; [done|]. by constructor.
Qed.

Lemma convertMessage_informative (message : AnthropicMessage JsonObject) out :
  validateAnthropicMessage message = Ok tt →
  convertMessage _ json_stringify message = Ok out →
  Forall informative out.
Proof.
  unfold validateAnthropicMessage, convertMessage.
  destruct (truthy (a_role message)); simpl; [|done].
  destruct (a_content message) as [s|parts].
  - destruct (truthy s) eqn:Hs; simpl; [|done]. intros _ [= <-].
    constructor; [|constructor]. intros _. by left.
  - intros _. destruct (String.eqb (a_role message) "assistant").
    + destruct (assistantParts _ json_stringify parts "" [])
        as [[text calls]|e]; simpl; [|done].
      destruct (truthy (trim text)) eqn:Htext; simpl; rewrite ?Htext; simpl.
      * intros [= <-]. constructor; [|constructor]. intros _. left.
        simpl. exact Htext.
      * destruct calls as [|call calls]; intros [= <-]; [constructor|].
        constructor; [|constructor]. intros _. right. by eexists _, _.
    + destruct (String.eqb (a_role message) "user"); [|by intros [= <-]].
      destruct (userParts _ json_stringify parts "" [])
        as [[text tools]|e] eqn:Hu; simpl; [|done].
      intros [= <-]. apply Forall_app. split.
      * destruct (truthy (trim text)); constructor; [|constructor].
        intros Hr. simpl in Hr. done.
      * apply userParts_roles in Hu; [|constructor].
        eapply Forall_impl; [exact Hu|]. intros m Hm Hr. congruence.
Qed.

Lemma flatMapMessages_informative (msgs : list (AnthropicMessage JsonObject)) :
  ∀ out,
    (∀ message, message ∈ msgs → validateAnthropicMessage message = Ok tt) →
    flatMapMessages _ json_stringify msgs = Ok out →
    Forall informative out.
Proof.
  induction msgs as [|m msgs IH]; intros out Hvalid; simpl.
  - intros [= <-]. constructor.
  - destruct (convertMessage _ json_stringify m) as [here|e] eqn:Hm; simpl;
      [|done].
    destruct (flatMapMessages _ json_stringify msgs) as [there|e]; simpl;
      [|done].
    intros [= <-]. apply Forall_app. split.
    + apply (convertMessage_informative m); [apply Hvalid; left|done].
    + apply IH; [|done]. intros m' Hin. apply Hvalid. by right.
Qed.

Lemma validateStep_informative before m rest m' :
  m' ∈ validateStep before m rest → informative m → informative m'.
Proof.
  unfold validateStep. destruct (assistantCalls m) as [calls|].
  - unfold validateAssistant.
    destruct (filter _ calls) as [|v valid]; simpl.
    + destruct (content_truthy (content m)) eqn:Hc; simpl.
      * intros ->%list_elem_of_singleton _ _. by left.
      * intros Hin. by apply not_elem_of_nil in Hin.
    + rewrite orb_true_r. intros ->%list_elem_of_singleton _ _.
      right. by eexists _, _.
  - destruct (has_role "tool" m); [destruct (hasImmediateToolCall before m)|].
    + by intros ->%list_elem_of_singleton.
    + intros Hin. by apply not_elem_of_nil in Hin.
    + by intros ->%list_elem_of_singleton.
Qed.

Lemma validateLoop_informative following : ∀ before m',
  Forall informative following →
  m' ∈ validateLoop before following → informative m'.
Proof.
  induction following as [|m rest IH]; intros before m' Hall; simpl.
  - intros Hin. by apply not_elem_of_nil in Hin.
  - apply Forall_cons in Hall as [Hm Hrest].
    intros [Hin|Hin]%elem_of_app.
    + by apply (validateStep_informative before m rest).
    + by apply (IH (m :: before)).
Qed.

(** Outside the Chimera path every assistant message of the payload has
    non-empty content or at least one invocation. *)
Lemma validated_payload_informative (body : Body) out m :
  format body = Ok out →
  mapModel (model body) ≠ CHIMERA →
  ChatEntry m ∈ p_messages out →
  informative m.
Proof.
  intros (_ & Hvalid & msgs & Hflat & _ & _ & Hmsgs)%format_Ok Hch Hin.
  rewrite Hmsgs in Hin. cbv zeta in Hin.
  apply String.eqb_neq in Hch. rewrite Hch in Hin.
  apply elem_of_app in Hin as [Hin|Hin].
  - apply list_elem_of_fmap in Hin as (sm & Heq & _). done.
  - apply list_elem_of_fmap in Hin as (m0 & [= <-] & Hin).
    apply (validateLoop_informative msgs [] m); [|exact Hin].
    apply (flatMapMessages_informative (messages body)); [|done].
    intros message Hmsg.
    by apply (validateMessages_accepts (messages body) 0).
Qed.

End TranslatorProperties.

(** ** Provider-directive resolution *)

Section ResolverProperties.

Variable parse_object : string → option ProviderConfig.

Abbreviation resolve := (resolveProviderConfig parse_object).

Lemma truthy_true s : truthy s = true ↔ s ≠ "".
Proof.
  unfold truthy. rewrite negb_true_iff. apply String.eqb_neq.
Qed.








End ResolverProperties.

(** ** Instances *)



(** C1: on the Chimera path the payload keeps an assistant message with
    [null] content and no [tool_calls] field.  The request is one
    assistant turn that only invokes a tool, under a model name that
    aliases to Chimera. *)
Theorem chimera_keeps_empty_assistant_message :
  formatAnthropicToOpenAI stringify_any opus_tool_only
  = Ok (mkPayload unit Z CHIMERA
          [ChatEntry (mkMessage "assistant" Null None None)]
          None None (indexTable modelProviderConfigs CHIMERA) None) ∧
  ¬ informative (mkMessage "assistant" Null None None).
Proof.
  split; [reflexivity|].
  intros Hinf. destruct (Hinf eq_refl) as [Hc|(call & calls & Htc)]; done.
Qed.

Lemma chimera_payload_has_no_tool_data_witness :
  (∃ out,
     formatAnthropicToOpenAI stringify_any opus_conversation = Ok out ∧
     mapModel (model opus_conversation) = CHIMERA ∧
     p_tools out = None ∧
     ∀ m, ChatEntry m ∈ p_messages out →
          role m ≠ "tool" ∧ (role m = "assistant" → tool_calls m = None)) ∧
  (in_model opus_incoming = Some "opus" ∧
   mapModel "opus" = CHIMERA ∧
   in_tools (stripForChimera opus_incoming) = None ∧
   ∀ msgs m, in_messages (stripForChimera opus_incoming) = Some msgs →
             m ∈ msgs →
             role m ≠ "tool" ∧ (role m = "assistant" → tool_calls m = None)).
Proof.
  destruct (chimera_payload_has_no_tool_data (Number := Z) stringify_any)
    as [Htranslator Hforward].
  split.
  - eexists. split; [reflexivity|]. split; [reflexivity|].
    apply (Htranslator opus_conversation); reflexivity.
  - split; [reflexivity|]. split; [reflexivity|].
    apply (Hforward unit opus_incoming "opus"); reflexivity.
Defined.

Lemma system_prompt_to_system_messages_witness :
  ∃ out,
    formatAnthropicToOpenAI stringify_any opus_conversation = Ok out ∧
    (∃ chat, p_messages out =
             (SystemEntry <$> system_entries (p_messages out))
             ++ (ChatEntry <$> chat)) ∧
    Forall2 (fun segment m =>
               ∃ marker, sys_content m = [mkSystemPart segment marker])
            ["be brief"; "be kind"] (system_entries (p_messages out)).
Proof.
  eexists. split; [reflexivity|].
  apply (system_prompt_to_system_messages stringify_any opus_conversation).
  reflexivity.
Defined.

(** C5, as stated, fails for an absent system prompt: the payload holds
    no system message, not one. *)
Lemma absent_system_prompt_no_system_message :
  ∃ out,
    formatAnthropicToOpenAI stringify_any (request "gpt-4o" None) = Ok out ∧
    p_messages out = [ChatEntry (mkMessage "user" (Text "hello") None None)] ∧
    system_entries (p_messages out) = [] ∧
    List.length (system_entries (p_messages out)) ≠ 1.
Proof.
  eexists. split; [reflexivity|]. split_and!; [reflexivity..|]. simpl. lia.
Qed.

Lemma cache_marker_follows_request_model_witness :
  ∃ out,
    formatAnthropicToOpenAI stringify_any opus_conversation = Ok out ∧
    (∀ m part, m ∈ system_entries (p_messages out) → part ∈ sys_content m →
       (cache_control part = Some Ephemeral ↔
        includes "claude-3-opus" "claude" = true)) ∧
    system_part_texts (p_messages out) = ["be brief"; "be kind"].
Proof.
  eexists. split; [reflexivity|].
  apply (cache_marker_follows_request_model stringify_any opus_conversation).
  reflexivity.
Defined.

(** C4, as stated, fails: for the request model ["claude-3-haiku"] the
    aliased target model does not contain ["claude"], yet the system part
    carries the marker. *)
Lemma cache_marker_not_by_target_model :
  ∃ out,
    formatAnthropicToOpenAI stringify_any
      (request "claude-3-haiku" (Some (SystemString "be brief"))) = Ok out ∧
    p_model out = "z-ai/glm-4.5-air:free" ∧
    includes (p_model out) "claude" = false ∧
    system_entries (p_messages out)
    = [mkSystemMessage [mkSystemPart "be brief" (Some Ephemeral)]].
Proof.
  eexists. split; [reflexivity|]. split_and!; reflexivity.
Qed.

Lemma empty_content_is_structural_error_witness :
  (∃ e, formatAnthropicToOpenAI stringify_any
          (mkBody "claude-3-sonnet"
             [mkAnthropicMessage "user" (StringContent "")]
             None None None None : ExampleBody) = Err e ∧
        is_structural e = true) ∧
  (∃ e, formatAnthropicToOpenAI stringify_any
          (mkBody "claude-3-sonnet"
             [mkAnthropicMessage "user"
                (PartsContent [ToolResultPart "t1" (ResultString "")])]
             None None None None : ExampleBody) = Err e ∧
        is_structural e = true).
Proof.
  split.
  - eapply (empty_content_is_structural_error stringify_any); [left|].
    by left.
  - eapply (empty_content_is_structural_error stringify_any); [left|].
    right. eexists _, _. split; [reflexivity|left].
Defined.

(** ** Scenarios *)

Example scenario_A :
  formatAnthropicToOpenAI stringify_any
    (mkBody "claude-3-sonnet"
       [mkAnthropicMessage "user" (PartsContent [TextPart "hi"])]
       None None None None : ExampleBody)
  = Ok (mkPayload unit Z "z-ai/glm-4.6:exacto"
          [ChatEntry (mkMessage "user" (Text "hi") None None)]
          None None (indexTable modelProviderConfigs "z-ai/glm-4.6:exacto")
          None).
Proof. reflexivity. Qed.

Example scenario_B :
  p_messages <$> formatAnthropicToOpenAI stringify_any (tool_round_trip "t1")
  = Ok [ChatEntry (mkMessage "assistant" Null
                     (Some [mkToolCall "t1" "search" "{}"]) None);
        ChatEntry (mkMessage "tool" (Text "result") None (Some "t1"))].
Proof. reflexivity. Qed.

Example scenario_C :
  p_messages <$> formatAnthropicToOpenAI stringify_any (tool_round_trip "t2")
  = Ok [].
Proof. reflexivity. Qed.

Example scenario_E :
  mapModel "custom-provider/custom-model" = "custom-provider/custom-model" ∧
  indexTable modelProviderConfigs "custom-provider/custom-model" = None.
Proof. split; reflexivity. Qed.

Example trim_example :
  trim ("  first" +:+ newline +:+ "second" +:+ newline) =
  "first" +:+ newline +:+ "second".
Proof. reflexivity. Qed.

Example validator_example :
  let assistant ids :=
    mkMessage "assistant" Null
      (Some ((fun i => mkToolCall i "f" "{}") <$> ids)) None in
  let tool i := mkMessage "tool" (Text "r") None (Some i) in
  let user := mkMessage "user" (Text "x") None None in
  validateOpenAIToolCalls
    [tool "a"; assistant ["a"; "b"]; tool "c"; tool "a"; user; tool "a";
     assistant ["z"]; tool "q"]
  = [assistant ["a"]; tool "a"; user].
Proof. reflexivity. Qed.

(** * Further properties *)

(** ** The validator on well-formed and on split conversations *)

Lemma immediateToolMessages_subseteq following t :
  t ∈ immediateToolMessages following → t ∈ following.
Proof.
  induction following as [|m rest IH]; simpl; [done|].
  destruct (has_role "tool" m); [|by intros ?%not_elem_of_nil].
  intros [->|Hin]%elem_of_cons; [left|right; by apply IH].
Qed.

Lemma set_tool_calls_same m : set_tool_calls (tool_calls m) m = m.
Proof. by destruct m. Qed.

(** The pairing invariant stated on splits gives the one stated along
    the list. *)
Lemma paired_of_splits out : ∀ pre,
  invocations_answered (pre ++ out) →
  results_anchored (pre ++ out) →
  paired (precedingNonTool (reverse pre)) out.
Proof.
  induction out as [|m rest IH]; intros pre Hans Hanc; [done|].
  assert (Hrest : paired (precedingNonTool (reverse (pre ++ [m]))) rest).
  { apply IH; by rewrite <- app_assoc. }
  rewrite reverse_app in Hrest. simpl in Hrest. simpl.
  destruct (has_role "tool" m) eqn:Ht.
  - split; [|done]. apply (Hanc pre m rest); [done|]. by apply has_role_true.
  - split; [|done]. intros Hr call Hcall. by apply (Hans pre m rest).
Qed.

Lemma loopFrom_fixed ms : ∀ cand,
  paired cand ms →
  (∀ m, m ∈ ms → role m = "tool" → tool_call_id m ≠ Some "") →
  (∀ m, m ∈ ms → role m = "assistant" → tool_calls m ≠ Some []) →
  loopFrom cand ms = ms.
Proof.
  induction ms as [|m rest IH]; intros cand Hp Hids Hcalls; [done|].
  simpl. simpl in Hp.
  assert (Hids' : ∀ m', m' ∈ rest → role m' = "tool" →
                        tool_call_id m' ≠ Some "")
    by (intros m' Hin; apply Hids; by right).
  assert (Hcalls' : ∀ m', m' ∈ rest → role m' = "assistant" →
                          tool_calls m' ≠ Some [])
    by (intros m' Hin; apply Hcalls; by right).
  destruct (has_role "tool" m) eqn:Ht.
  - destruct Hp as [(a & -> & Hr & call & Hcall & Hid) Hp].
    rewrite (IH _ Hp Hids' Hcalls').
    assert (Hk : keeps (Some a) m = true).
    { apply keeps_true. unfold invocations in Hcall.
      destruct (tool_calls a) as [calls|] eqn:Htc;
        [|by apply not_elem_of_nil in Hcall].
      exists a, calls, call. split_and!; try done.
      - by apply assistantCalls_Some.
      - apply truthy_true. intros Hempty.
        apply (Hids m); [left|by apply has_role_true|].
        by rewrite Hid, Hempty. }
    by rewrite Hk.
  - destruct Hp as [Hans Hp]. rewrite (IH _ Hp Hids' Hcalls'). f_equal.
    unfold validateStep.
    destruct (assistantCalls m) as [calls|] eqn:Hc; [|by rewrite Ht].
    apply assistantCalls_Some in Hc as [Hr Htc]. unfold validateAssistant.
    rewrite filter_all.
    + destruct calls as [|c calls].
      * exfalso. by apply (Hcalls m); [left|..].
      * simpl. rewrite orb_true_r, <- Htc. by rewrite set_tool_calls_same.
    + intros call Hcall. apply toolMessageMap_has.
      destruct (Hans Hr call) as (t & Hin & Hid).
      { unfold invocations. by rewrite Htc. }
      exists t. split_and!; try done.
      apply truthy_true. intros Hempty.
      apply (Hids' t).
      * by apply immediateToolMessages_subseteq.
      * apply has_role_true. by apply (immediateToolMessages_tools rest).
      * by rewrite Hid, Hempty.
Qed.

(** X1: a conversation that already satisfies the pairing invariant, in
    which no tool message has an empty [tool_call_id] and no assistant
    message carries an empty invocation list, is returned unchanged. *)
Theorem validateOpenAIToolCalls_fixed_point (ms : list OpenAIMessage) :
  invocations_answered ms →
  results_anchored ms →
  (∀ m, m ∈ ms → role m = "tool" → tool_call_id m ≠ Some "") →
  (∀ m, m ∈ ms → role m = "assistant" → tool_calls m ≠ Some []) →
  validateOpenAIToolCalls ms = ms.
Proof.
  intros Hans Hanc Hids Hcalls. rewrite validate_as_loopFrom.
  apply loopFrom_fixed; [|done..].
  by apply (paired_of_splits ms []).
Qed.

Lemma validateStep_roles before m rest m' :
  m' ∈ validateStep before m rest → role m' = role m.
Proof.
  destruct (validateStep_trims before m rest) as [->|(m0 & -> & Hr & _)].
  - by intros ?%not_elem_of_nil.
  - by intros ->%list_elem_of_singleton.
Qed.

Lemma validateStep_other before m rest :
  role m ≠ "assistant" → role m ≠ "tool" →
  validateStep before m rest = [m].
Proof.
  intros Ha%has_role_false Ht%has_role_false.
  unfold validateStep, assistantCalls. by rewrite Ha, Ht.
Qed.

Lemma filter_none {A} (P : A → Prop) `{!∀ x, Decision (P x)} (l : list A) :
  (∀ x, x ∈ l → ¬ P x) → filter P l = [].
Proof.
  induction l as [|x l IH]; intros Hall; [done|].
  rewrite filter_cons_False by (apply Hall; left).
  apply IH. intros y Hy. apply Hall. by right.
Qed.

Lemma validateLoop_other_roles following : ∀ before,
  filter (fun m => role m ≠ "assistant" ∧ role m ≠ "tool")
         (validateLoop before following)
  = filter (fun m => role m ≠ "assistant" ∧ role m ≠ "tool") following.
Proof.
  induction following as [|m rest IH]; intros before; [done|].
  simpl. rewrite filter_app, IH, filter_cons.
  destruct (decide (role m ≠ "assistant" ∧ role m ≠ "tool")) as [[Ha Ht]|Hno].
  - rewrite validateStep_other by done.
    rewrite filter_cons_True by done. done.
  - rewrite filter_none; [done|].
    intros m' Hin. by rewrite (validateStep_roles _ _ _ _ Hin).
Qed.

(** X2: the messages whose role is neither [assistant] nor [tool] come out
    of the validator unchanged, all of them, in their original order. *)
Theorem validateOpenAIToolCalls_other_roles (ms : list OpenAIMessage) :
  filter (fun m => role m ≠ "assistant" ∧ role m ≠ "tool")
         (validateOpenAIToolCalls ms)
  = filter (fun m => role m ≠ "assistant" ∧ role m ≠ "tool") ms.
Proof. apply validateLoop_other_roles. Qed.

Lemma loopFrom_leading_tools cand orphans ms :
  Forall (fun m => role m = "tool") orphans →
  (∀ t, t ∈ orphans → keeps cand t = false) →
  loopFrom cand (orphans ++ ms) = loopFrom cand ms.
Proof.
  induction orphans as [|t orphans IH]; intros Hall Hk; [done|].
  apply Forall_cons in Hall as [Ht%has_role_true Hall].
  simpl. rewrite Ht, (Hk t) by left. simpl.
  apply IH; [done|]. intros t' Hin. apply Hk. by right.
Qed.

(** X3: tool messages at the very start of a conversation have no
    assistant message before them; they are dropped, and the rest is
    validated as if they had not been there. *)
Theorem validateOpenAIToolCalls_leading_tools (orphans ms : list OpenAIMessage) :
  Forall (fun m => role m = "tool") orphans →
  validateOpenAIToolCalls (orphans ++ ms) = validateOpenAIToolCalls ms.
Proof.
  intros Hall. rewrite !validate_as_loopFrom.
  by apply loopFrom_leading_tools.
Qed.

Lemma immediateToolMessages_app_non_tool a m b :
  has_role "tool" m = false →
  immediateToolMessages (a ++ m :: b) = immediateToolMessages a.
Proof.
  intros Hm. induction a as [|x a IH]; simpl; [by rewrite Hm|].
  destruct (has_role "tool" x); [by rewrite IH|done].
Qed.

Lemma validateStep_app_non_tool before x a m b :
  has_role "tool" m = false →
  validateStep before x (a ++ m :: b) = validateStep before x a.
Proof.
  intros Hm. unfold validateStep, validateAssistant.
  by rewrite immediateToolMessages_app_non_tool.
Qed.

Lemma loopFrom_app_non_tool a m b : ∀ cand,
  has_role "tool" m = false →
  loopFrom cand (a ++ m :: b) = loopFrom cand a ++ loopFrom None (m :: b).
Proof.
  induction a as [|x a IH]; intros cand Hm.
  - simpl. by rewrite Hm.
  - simpl. destruct (has_role "tool" x).
    + rewrite IH by done. by rewrite app_assoc.
    + rewrite IH, validateStep_app_non_tool by done. by rewrite app_assoc.
Qed.

(** X4: the validator works turn by turn.  Cutting a conversation in front
    of a message that is not a tool message and validating the two halves
    separately gives the same result as validating the whole. *)
Theorem validateOpenAIToolCalls_split (a b : list OpenAIMessage) m :
  role m ≠ "tool" →
  validateOpenAIToolCalls (a ++ m :: b)
  = validateOpenAIToolCalls a ++ validateOpenAIToolCalls (m :: b).
Proof.
  intros Hm%has_role_false. rewrite !validate_as_loopFrom.
  by apply loopFrom_app_non_tool.
Qed.

Lemma validateStep_keeps_content before m rest :
  has_role "tool" m = false →
  content_truthy (content m) = true →
  ∃ m', validateStep before m rest = [m'] ∧ trimmed_copy m m'.
Proof.
  intros Ht Hc.
  destruct (validateStep_trims before m rest) as [Hnil|?]; [|done].
  exfalso. unfold validateStep in Hnil.
  destruct (assistantCalls m) as [calls|]; [|by rewrite Ht in Hnil].
  unfold validateAssistant in Hnil.
  destruct (filter _ calls); simpl in Hnil; by rewrite Hc in Hnil.
Qed.

Lemma validateLoop_keeps_content following : ∀ before m,
  m ∈ following →
  role m ≠ "tool" →
  content_truthy (content m) = true →
  ∃ m', m' ∈ validateLoop before following ∧ trimmed_copy m m'.
Proof.
  induction following as [|x rest IH]; intros before m Hin Ht Hc.
  - by apply not_elem_of_nil in Hin.
  - simpl. apply elem_of_cons in Hin as [->|Hin].
    + apply has_role_false in Ht.
      destruct (validateStep_keeps_content before x rest Ht Hc)
        as (m' & -> & Hm').
      exists m'. split; [left|done].
    + destruct (IH (x :: before) m Hin Ht Hc) as (m' & Hm' & Htrim).
      exists m'. split; [|done]. apply elem_of_app. by right.
Qed.

(** X5: the validator never loses text.  Every message that is not a tool
    message and has non-empty content is still in the output, with the
    same role and content and a sub-list of its invocations. *)
Theorem validateOpenAIToolCalls_keeps_content (ms : list OpenAIMessage) m :
  m ∈ ms →
  role m ≠ "tool" →
  content_truthy (content m) = true →
  ∃ m', m' ∈ validateOpenAIToolCalls ms ∧ trimmed_copy m m'.
Proof. apply validateLoop_keeps_content. Qed.

(** ** Acceptance and errors of the translator *)

Section TranslatorMore.

Context {JsonObject Number : Type}.
Variable json_stringify : JsonObject → option string.

Abbreviation Body' := (MessageCreateParamsBase JsonObject Number).
Abbreviation format' := (formatAnthropicToOpenAI json_stringify).

Lemma truthy_false s : truthy s = false ↔ s = "".
Proof.
  unfold truthy. rewrite negb_false_iff. apply String.eqb_eq.
Qed.

Lemma validatePart_ok index (part : AnthropicContentPart JsonObject) :
  validatePart index part = Ok tt ↔ part_ok part.
Proof.
  destruct part as [t|id name input|tid c|ty]; simpl.
  - done.
  - destruct (truthy id) eqn:Hid, (truthy name) eqn:Hname; simpl;
      rewrite ?truthy_true, ?truthy_false in *; split; try done;
      intros [? ?]; congruence.
  - destruct (truthy tid) eqn:Hid; simpl.
    + apply truthy_true in Hid. destruct c as [s|o]; simpl.
      * destruct (truthy s) eqn:Hs; simpl;
          rewrite ?truthy_true, ?truthy_false in *; split; try done.
        -- intros _. split; [done|congruence].
        -- intros [_ Hne]. congruence.
      * split; done.
    + apply truthy_false in Hid. split; [done|]. intros [? _]. congruence.
  - destruct (truthy ty); simpl; split; done.
Qed.

Lemma validateParts_ok (parts : list (AnthropicContentPart JsonObject)) :
  ∀ index, validateParts index parts = Ok tt ↔ Forall part_ok parts.
Proof.
  induction parts as [|part parts IH]; intros index; simpl.
  - split; [constructor|done].
  - rewrite Forall_cons, <- (IH (S index)), <- (validatePart_ok index).
    destruct (validatePart index part) as [[]|e]; simpl; split; try done.
    + by intros [? ?].
    + by intros [? ?].
Qed.

Lemma validateAnthropicMessage_ok (message : AnthropicMessage JsonObject) :
  validateAnthropicMessage message = Ok tt ↔ message_ok message.
Proof.
  unfold validateAnthropicMessage, message_ok.
  destruct (truthy (a_role message)) eqn:Hr; simpl.
  - apply truthy_true in Hr. destruct (a_content message) as [s|parts].
    + destruct (truthy s) eqn:Hs; simpl;
        rewrite ?truthy_true, ?truthy_false in *; split; try done.
      intros [_ ?]. congruence.
    + rewrite validateParts_ok. by split; [|intros [_ ?]].
  - apply truthy_false in Hr. split; [done|]. intros [? _]. congruence.
Qed.

Lemma validateMessages_ok (msgs : list (AnthropicMessage JsonObject)) :
  ∀ index, validateMessages index msgs = Ok tt ↔ Forall message_ok msgs.
Proof.
  induction msgs as [|m msgs IH]; intros index; simpl.
  - split; [constructor|done].
  - rewrite Forall_cons, <- (IH (S index)), <- validateAnthropicMessage_ok.
    destruct (validateAnthropicMessage m) as [[]|e]; split; try done.
    + by intros [? ?].
    + by intros [? ?].
Qed.

Lemma assistantParts_total (parts : list (AnthropicContentPart JsonObject)) :
  (∀ o, is_Some (json_stringify o)) →
  ∀ text calls, ∃ r, assistantParts _ json_stringify parts text calls = Ok r.
Proof.
  intros Htotal. induction parts as [|part parts IH]; intros text calls; simpl.
  - by eexists.
  - destruct part as [t|id name input|tid c|ty]; try apply IH.
    unfold safeJsonStringify. destruct (Htotal input) as [s ->]. simpl.
    apply IH.
Qed.

Lemma userParts_total (parts : list (AnthropicContentPart JsonObject)) :
  (∀ o, is_Some (json_stringify o)) →
  ∀ text acc, ∃ r, userParts _ json_stringify parts text acc = Ok r.
Proof.
  intros Htotal. induction parts as [|part parts IH]; intros text acc; simpl.
  - by eexists.
  - destruct part as [t|id name input|tid c|ty]; try apply IH.
    destruct c as [s|o]; simpl; [apply IH|].
    unfold safeJsonStringify. destruct (Htotal o) as [s ->]. simpl.
    apply IH.
Qed.

Lemma flatMapMessages_total (msgs : list (AnthropicMessage JsonObject)) :
  (∀ o, is_Some (json_stringify o)) →
  ∃ out, flatMapMessages _ json_stringify msgs = Ok out.
Proof.
  intros Htotal. induction msgs as [|m msgs [there IH]]; simpl.
  - by eexists.
  - rewrite IH.
    assert (Hm : ∃ here, convertMessage _ json_stringify m = Ok here).
    { unfold convertMessage. destruct (a_content m) as [s|parts];
        [by eexists|].
      destruct (String.eqb (a_role m) "assistant").
      - destruct (assistantParts_total parts Htotal "" [])
          as [[text calls] ->]. simpl.
        destruct (_ || _); by eexists.
      - destruct (String.eqb (a_role m) "user"); [|by eexists].
        destruct (userParts_total parts Htotal "" []) as [[text acc] ->].
        simpl. by eexists. }
    destruct Hm as [here ->]. simpl. by eexists.
Qed.

(** X6: when [JSON.stringify] cannot fail, the translator accepts a
    conversation if and only if its model name is not empty and every
    message is well shaped: a non-empty role, and either non-empty string
    content or an array of parts in which every [tool_use] has non-empty
    id and name, every [tool_result] has a non-empty id and content other
    than the empty string, and no part has an unknown type. *)
Theorem format_accepts_iff (body : Body') :
  (∀ o, is_Some (json_stringify o)) →
  (∃ out, format' body = Ok out) ↔
  model body ≠ "" ∧ Forall message_ok (messages body).
Proof.
  intros Htotal. rewrite <- (validateMessages_ok _ 0), <- truthy_true.
  unfold formatAnthropicToOpenAI.
  destruct (truthy (model body)); simpl.
  - destruct (validateMessages 0 (messages body)) as [[]|e]; simpl.
    + destruct (flatMapMessages_total (messages body) Htotal) as [out ->].
      simpl. split; [done|]. intros _. by eexists.
    + split; [by intros [? ?]|by intros [_ ?]].
  - split; [by intros [? ?]|by intros [? _]].
Qed.

Lemma validateMessages_first_error (msgs : list (AnthropicMessage JsonObject)) :
  ∀ index err,
    validateMessages index msgs = Err err →
    ∃ i message e,
      err = InvalidMessage (index + i) e ∧
      msgs !! i = Some message ∧
      validateAnthropicMessage message = Err e ∧
      ∀ j earlier, j < i → msgs !! j = Some earlier →
                   validateAnthropicMessage earlier = Ok tt.
Proof.
  induction msgs as [|m msgs IH]; intros index err; simpl; [done|].
  destruct (validateAnthropicMessage m) as [[]|e] eqn:Hm.
  - intros (i & message & e & -> & Hlook & Hbad & Hbefore)%IH.
    exists (S i), message, e. split_and!; try done.
    + f_equal. lia.
    + intros [|j] earlier Hj; simpl; [by intros [= <-]|].
      apply Hbefore. lia.
  - intros [= <-]. exists 0, m, e. split_and!; try done.
    + f_equal. lia.
    + intros j earlier Hj. lia.
Qed.

Lemma flatMapMessages_errors (msgs : list (AnthropicMessage JsonObject)) err :
  flatMapMessages _ json_stringify msgs = Err err → is_structural err = false.
Proof.
  assert (Hsafe : ∀ o ctx e,
            safeJsonStringify _ json_stringify o ctx = Err e →
            is_structural e = false).
  { intros o ctx e. unfold safeJsonStringify.
    destruct (json_stringify o); [done|]. by intros [= <-]. }
  assert (Ha : ∀ parts text calls e,
            assistantParts _ json_stringify parts text calls = Err e →
            is_structural e = false).
  { induction parts as [|part parts IH]; intros text calls e; simpl; [done|].
    destruct part as [t|id name input|tid c|ty]; try apply IH.
    destruct (safeJsonStringify _ json_stringify input _) as [s|e'] eqn:Hs;
      simpl; [apply IH|].
    intros [= <-]. by apply Hsafe in Hs. }
  assert (Hu : ∀ parts text acc e,
            userParts _ json_stringify parts text acc = Err e →
            is_structural e = false).
  { induction parts as [|part parts IH]; intros text acc e; simpl; [done|].
    destruct part as [t|id name input|tid c|ty]; try apply IH.
    destruct c as [s|o]; simpl; [apply IH|].
    destruct (safeJsonStringify _ json_stringify o _) as [s|e'] eqn:Hs;
      simpl; [apply IH|].
    intros [= <-]. by apply Hsafe in Hs. }
  induction msgs as [|m msgs IH]; simpl; [done|].
  destruct (convertMessage _ json_stringify m) as [here|e] eqn:Hm; simpl.
  - destruct (flatMapMessages _ json_stringify msgs) as [there|e]; simpl;
      [done|].
    intros [= <-]. by apply IH.
  - intros [= <-]. unfold convertMessage in Hm.
    destruct (a_content m) as [s|parts]; [done|].
    destruct (String.eqb (a_role m) "assistant").
    + destruct (assistantParts _ json_stringify parts "" [])
        as [[text calls]|e'] eqn:Hp; simpl in Hm.
      * by destruct (_ || _).
      * injection Hm as <-. by apply Ha in Hp.
    + destruct (String.eqb (a_role m) "user"); [|done].
      destruct (userParts _ json_stringify parts "" [])
        as [[text acc]|e'] eqn:Hp; simpl in Hm; [done|].
      injection Hm as <-. by apply Hu in Hp.
Qed.

(** X7: when the translator rejects a conversation for an invalid message,
    the index it reports is that of the first message that fails
    validation, and the reported cause is that message's own validation
    error. *)
Theorem format_reports_first_invalid_message (body : Body') i e :
  format' body = Err (InvalidMessage i e) →
  ∃ message,
    messages body !! i = Some message ∧
    validateAnthropicMessage message = Err e ∧
    ∀ j earlier, j < i → messages body !! j = Some earlier →
                 validateAnthropicMessage earlier = Ok tt.
Proof.
  unfold formatAnthropicToOpenAI.
  destruct (truthy (model body)); simpl; [|done].
  destruct (validateMessages 0 (messages body)) as [[]|err] eqn:Hv; simpl.
  - destruct (flatMapMessages _ json_stringify (messages body))
      as [out|err] eqn:Hf; simpl; [done|].
    intros [= ->]. by apply flatMapMessages_errors in Hf.
  - intros [= ->].
    apply validateMessages_first_error in Hv
      as (i' & message & e' & [= -> ->] & Hlook & Hbad & Hbefore).
    by exists message.
Qed.

End TranslatorMore.

(** ** Per-message expansion *)

Lemma string_app_assoc (a b c : string) : (a +:+ b) +:+ c = a +:+ (b +:+ c).
Proof.
  induction a as [|x a IH]; [done|].
  change (String x ((a +:+ b) +:+ c) = String x (a +:+ (b +:+ c))).
  by f_equal.
Qed.

Lemma string_app_empty_r (a : string) : a +:+ "" = a.
Proof.
  induction a as [|x a IH]; [done|].
  change (String x (a +:+ "") = String x a). by f_equal.
Qed.

Section Expansion.

Context {JsonObject Number : Type}.
Variable json_stringify : JsonObject → option string.

Abbreviation convert := (convertMessage JsonObject json_stringify).
Abbreviation invocation_of := (invocation_from json_stringify).
Abbreviation tool_message_of := (tool_message_from json_stringify).

Lemma assistantParts_spec (parts : list (AnthropicContentPart JsonObject)) :
  ∀ text calls text' calls',
    assistantParts _ json_stringify parts text calls = Ok (text', calls') →
    text' = text +:+ joined_text parts ∧
    ∃ new, calls' = calls ++ new ∧
           Forall2 invocation_of (tool_uses parts) new.
Proof.
  induction parts as [|part parts IH]; intros text calls text' calls'; simpl.
  - intros [= <- <-]. rewrite string_app_empty_r. split; [done|].
    exists []. by rewrite app_nil_r.
  - destruct part as [t|id name input|tid c|ty]; try apply IH.
    + intros (-> & new & -> & Hnew)%IH. split; [|by exists new].
      simpl. by rewrite !string_app_assoc.
    + unfold safeJsonStringify.
      destruct (json_stringify input) as [args|] eqn:Hargs; simpl; [|done].
      intros (-> & new & -> & Hnew)%IH. split; [done|].
      exists (mkToolCall id name args :: new).
      split; [by rewrite <- app_assoc|].
      change (tool_uses (ToolUsePart id name input :: parts))
        with ((id, name, input) :: tool_uses parts).
      by constructor.
Qed.

Lemma userParts_spec (parts : list (AnthropicContentPart JsonObject)) :
  ∀ text acc text' acc',
    userParts _ json_stringify parts text acc = Ok (text', acc') →
    text' = text +:+ joined_text parts ∧
    ∃ new, acc' = acc ++ new ∧
           Forall2 tool_message_of (tool_results parts) new.
Proof.
  induction parts as [|part parts IH]; intros text acc text' acc'; simpl.
  - intros [= <- <-]. rewrite string_app_empty_r. split; [done|].
    exists []. by rewrite app_nil_r.
  - destruct part as [t|id name input|tid c|ty]; try apply IH.
    + intros (-> & new & -> & Hnew)%IH. split; [|by exists new].
      simpl. by rewrite !string_app_assoc.
    + change (tool_results (ToolResultPart tid c :: parts))
        with ((tid, c) :: tool_results parts).
      destruct c as [s|o]; simpl.
      * intros (-> & new & -> & Hnew)%IH. split; [done|].
        eexists (_ :: new). split; [by rewrite <- app_assoc|].
        by constructor.
      * unfold safeJsonStringify.
        destruct (json_stringify o) as [s|] eqn:Hs; simpl; [|done].
        intros (-> & new & -> & Hnew)%IH. split; [done|].
        eexists (_ :: new). split; [by rewrite <- app_assoc|].
        constructor; [|done]. split_and!; try done. by exists s.
Qed.

(** X8: an assistant message with an array of parts becomes at most one
    target message.  Its content is the texts of the [text] parts, each
    followed by a newline, joined in order and trimmed, or [null] if that
    is empty; its invocations are the [tool_use] parts in order, each with
    the same id and name and the serialized input; there is no message at
    all when both are empty. *)
Theorem convertMessage_assistant_parts
    (message : AnthropicMessage JsonObject) parts out :
  a_role message = "assistant" →
  a_content message = PartsContent parts →
  convert message = Ok out →
  ∃ calls,
    Forall2 invocation_of (tool_uses parts) calls ∧
    let text := trim (joined_text parts) in
    out = match truthy text, calls with
          | false, [] => []
          | true, [] => [mkMessage "assistant" (Text text) None None]
          | false, _ :: _ => [mkMessage "assistant" Null (Some calls) None]
          | true, _ :: _ =>
              [mkMessage "assistant" (Text text) (Some calls) None]
          end.
Proof.
  intros Hr Hc. unfold convertMessage. rewrite Hc, Hr. simpl.
  destruct (assistantParts _ json_stringify parts "" [])
    as [[text calls]|e] eqn:Hp; simpl; [|done].
  apply assistantParts_spec in Hp as (-> & new & -> & Hnew). simpl.
  intros Hout. exists new. split; [done|]. simpl.
  change (String.append "" (joined_text parts)) with (joined_text parts)
    in Hout.
  destruct (truthy (trim (joined_text parts))) eqn:Ht; simpl in Hout;
    rewrite ?Ht in Hout; simpl in Hout; destruct new; simpl in Hout;
    congruence.
Qed.

(** X9: a user message with an array of parts becomes an optional user
    message followed by one tool message per [tool_result] part, in order.
    The user message carries the joined and trimmed texts and is there
    only if they are not empty; each tool message carries the part's
    [tool_use_id] as [tool_call_id] and the part's content, a string as it
    is and an object serialized. *)
Theorem convertMessage_user_parts
    (message : AnthropicMessage JsonObject) parts out :
  a_role message = "user" →
  a_content message = PartsContent parts →
  convert message = Ok out →
  ∃ toolMessages,
    Forall2 tool_message_of (tool_results parts) toolMessages ∧
    let text := trim (joined_text parts) in
    out = (if truthy text then [mkMessage "user" (Text text) None None]
           else []) ++ toolMessages.
Proof.
  intros Hr Hc. unfold convertMessage. rewrite Hc, Hr. simpl.
  destruct (userParts _ json_stringify parts "" [])
    as [[text acc]|e] eqn:Hp; simpl; [|done].
  apply userParts_spec in Hp as (-> & new & -> & Hnew). simpl.
  change (String.append "" (joined_text parts)) with (joined_text parts).
  intros [= <-]. by exists new.
Qed.

End Expansion.

(** ** Whole conversations *)

Lemma mapModel_range x :
  mapModel x = x ∨ mapModel x = "z-ai/glm-4.5-air:free" ∨
  mapModel x = "z-ai/glm-4.6:exacto" ∨ mapModel x = CHIMERA.
Proof.
  unfold mapModel. destruct (includes x "/"); [by left|].
  unfold MODEL_MAPPING; simpl.
  repeat (case_match; [tauto|]). by left.
Qed.

(** X10: a model name aliases to the Chimera target, and so has tool data
    stripped, exactly when it is that target's own name, or it has no
    ["/"], contains ["opus"] and contains neither ["haiku"] nor
    ["sonnet"]. *)
Theorem mapModel_chimera_iff x :
  mapModel x = CHIMERA ↔
  x = CHIMERA ∨
  (includes x "/" = false ∧ includes x "haiku" = false ∧
   includes x "sonnet" = false ∧ includes x "opus" = true).
Proof.
  unfold mapModel, MODEL_MAPPING; simpl.
  destruct (includes x "/") eqn:Hsep.
  - split; [by left|]. intros [->|(? & _)]; done.
  - destruct (includes x "haiku"); [split; [done|]; intros [->|?]; [done|naive_solver]|].
    destruct (includes x "sonnet"); [split; [done|]; intros [->|?]; [done|naive_solver]|].
    destruct (includes x "opus").
    + split; [by right|done].
    + split; [by left|]. intros [->|?]; [done|naive_solver].
Qed.

Lemma paired_answered out :
  paired None out → invocations_answered out.
Proof.
  intros Hp pre a post call Heq Hr Hcall.
  destruct (paired_split _ None pre a post Hp Heq) as [_ H2]. by apply H2.
Qed.

Lemma paired_anchored out :
  paired None out → results_anchored out.
Proof.
  intros Hp pre t post Heq Hr.
  destruct (paired_split _ None pre t post Hp Heq) as [H1 _].
  rewrite <- (app_nil_r (reverse pre)), precedingNonTool_app. by apply H1.
Qed.

Lemma validate_paired ms : paired None (validateOpenAIToolCalls ms).
Proof.
  rewrite validate_as_loopFrom. apply paired_loopFrom. intros t _ Hk. done.
Qed.

Lemma validateLoop_tool_free l : ∀ before,
  Forall (fun m => tool_calls m = None ∧ role m ≠ "tool") l →
  validateLoop before l = l.
Proof.
  induction l as [|m l IH]; intros before Hall; [done|].
  apply Forall_cons in Hall as [[Htc Ht%has_role_false] Hall].
  simpl. rewrite IH by done.
  unfold validateStep, assistantCalls. rewrite Htc, Ht.
  by destruct (has_role "assistant" m).
Qed.

Lemma strip_tool_free (l : list OpenAIMessage) :
  Forall (fun m => tool_calls m = None ∧ role m ≠ "tool") l →
  omap stripToolData (ChatEntry <$> l) = ChatEntry <$> l.
Proof.
  induction l as [|m l IH]; intros Hall; [done|].
  apply Forall_cons in Hall as [[Htc Ht%has_role_false] Hall].
  change (omap stripToolData (ChatEntry <$> m :: l))
    with (match stripToolData (ChatEntry m) with
          | Some e' => e' :: omap stripToolData (ChatEntry <$> l)
          | None => omap stripToolData (ChatEntry <$> l)
          end).
  rewrite IH by done. unfold stripToolData, assistantCalls.
  rewrite Htc, Ht. by destruct (has_role "assistant" m).
Qed.

Section Conversations.

Context {JsonObject Number : Type}.
Variable json_stringify : JsonObject → option string.

Abbreviation Body'' := (MessageCreateParamsBase JsonObject Number).
Abbreviation format'' := (formatAnthropicToOpenAI json_stringify).

Lemma format_fields (body : Body'') out :
  format'' body = Ok out →
  p_provider out = indexTable modelProviderConfigs (mapModel (model body)) ∧
  p_temperature _ _ out = temperature _ _ body ∧
  p_stream _ _ out = stream _ _ body.
Proof.
  unfold formatAnthropicToOpenAI.
  destruct (truthy (model body)); simpl; [|done].
  destruct (validateMessages 0 (messages body)) as [[]|e]; simpl; [|done].
  destruct (flatMapMessages _ json_stringify (messages body))
    as [openAIMessages|e]; simpl; [|done].
  by intros [= <-].
Qed.

Lemma flatMapMessages_plain (msgs : list (AnthropicMessage JsonObject)) :
  Forall (fun m => ∃ s, a_content m = StringContent s) msgs →
  flatMapMessages _ json_stringify msgs = Ok (plain_message <$> msgs).
Proof.
  induction msgs as [|m msgs IH]; intros Hall; [done|].
  apply Forall_cons in Hall as [[s Hs] Hall].
  simpl. rewrite (IH Hall). unfold convertMessage, plain_message.
  by rewrite Hs.
Qed.

(** X11: a conversation all of whose messages have plain-string content
    and a role other than [tool] is translated message by message: the
    payload holds the system messages followed by one target message per
    source message, in order, with the same role and the same string as
    content, whatever the model. *)
Theorem format_plain_conversation (body : Body'') out :
  Forall (fun m => a_role m ≠ "tool" ∧ ∃ s, a_content m = StringContent s)
         (messages body) →
  format'' body = Ok out →
  p_messages out =
    (SystemEntry <$> systemMessages (model body)
                       (systemOrDefault (system body)))
    ++ (ChatEntry <$> (plain_message <$> messages body)).
Proof.
  intros Hall (_ & _ & msgs & Hflat & _ & _ & ->)%format_Ok. cbv zeta.
  rewrite flatMapMessages_plain in Hflat
    by (eapply Forall_impl; [exact Hall|]; by intros m [_ ?]).
  injection Hflat as <-.
  assert (Hfree : Forall (fun m => tool_calls m = None ∧ role m ≠ "tool")
                         (plain_message <$> messages body)).
  { apply Forall_fmap. eapply Forall_impl; [exact Hall|].
    intros m [Hr _]. by split. }
  destruct (String.eqb _ CHIMERA).
  - by rewrite omap_app, strip_system_entries, strip_tool_free.
  - unfold validateOpenAIToolCalls. by rewrite validateLoop_tool_free.
Qed.

(** X12: for a model that does not alias to the Chimera target, the tool
    declarations of the request are all converted, in order, each keeping
    its name, description and input schema; a request without
    declarations gives a payload without [tools]. *)
Theorem format_converts_tools (body : Body'') out :
  format'' body = Ok out →
  mapModel (model body) ≠ CHIMERA →
  match tools body with
  | Some declared =>
      ∃ converted,
        p_tools out = Some converted ∧
        Forall2 (fun t f => fn_name _ f = name _ t ∧
                            fn_description _ f = description _ t ∧
                            fn_parameters _ f = input_schema _ t)
                declared converted
  | None => p_tools out = None
  end.
Proof.
  intros (_ & _ & msgs & _ & _ & -> & _)%format_Ok Hch%String.eqb_neq.
  rewrite Hch. destruct (tools body) as [declared|]; [|done].
  eexists. split; [done|].
  induction declared as [|t declared IH]; [constructor|].
  rewrite fmap_cons. by constructor.
Qed.

(** X13: whenever aliasing changes the model name, the payload carries a
    provider directive, and that directive forbids fallbacks. *)
Theorem format_aliased_model_has_provider (body : Body'') out :
  format'' body = Ok out →
  mapModel (model body) ≠ model body →
  ∃ cfg, p_provider out = Some (Directive cfg) ∧
         allow_fallbacks cfg = Some false.
Proof.
  intros (-> & _)%format_fields Hne.
  destruct (mapModel_range (model body)) as [?|[-> |[-> | ->]]]; [done|..];
    by eexists.
Qed.

(** X14: for a model that does not alias to the Chimera target, the chat
    messages of the payload satisfy the pairing invariant: every
    invocation is answered in the run of tool messages right after its
    assistant message, and every tool message answers an invocation of
    the nearest preceding non-tool message. *)
Theorem format_payload_paired (body : Body'') out :
  format'' body = Ok out →
  mapModel (model body) ≠ CHIMERA →
  ∃ chat,
    p_messages out =
      (SystemEntry <$> systemMessages (model body)
                         (systemOrDefault (system body)))
      ++ (ChatEntry <$> chat) ∧
    invocations_answered chat ∧ results_anchored chat.
Proof.
  intros (_ & _ & msgs & _ & _ & _ & ->)%format_Ok Hch%String.eqb_neq.
  cbv zeta. rewrite Hch. exists (validateOpenAIToolCalls msgs).
  split; [done|]. pose proof (validate_paired msgs) as Hp.
  split; [by apply paired_answered|by apply paired_anchored].
Qed.

Lemma assistantParts_fails (parts : list (AnthropicContentPart JsonObject))
    id name input :
  ToolUsePart id name input ∈ parts →
  json_stringify input = None →
  ∀ text calls, ∃ e, assistantParts _ json_stringify parts text calls = Err e.
Proof.
  intros Hin Hfail. induction parts as [|part parts IH]; intros text calls.
  - by apply not_elem_of_nil in Hin.
  - simpl. apply elem_of_cons in Hin as [<-|Hin].
    + unfold safeJsonStringify. rewrite Hfail. by eexists.
    + destruct part as [t|id' name' input'|tid c|ty]; try by apply IH.
      destruct (safeJsonStringify _ json_stringify input' _); simpl;
        [by apply IH|by eexists].
Qed.

Lemma userParts_fails (parts : list (AnthropicContentPart JsonObject))
    tid o :
  ToolResultPart tid (ResultObject o) ∈ parts →
  json_stringify o = None →
  ∀ text acc, ∃ e, userParts _ json_stringify parts text acc = Err e.
Proof.
  intros Hin Hfail. induction parts as [|part parts IH]; intros text acc.
  - by apply not_elem_of_nil in Hin.
  - simpl. apply elem_of_cons in Hin as [<-|Hin].
    + unfold safeJsonStringify. rewrite Hfail. by eexists.
    + destruct part as [t|id' name' input'|tid' c|ty]; try by apply IH.
      destruct c as [s|o']; simpl; [by apply IH|].
      destruct (safeJsonStringify _ json_stringify o' _); simpl;
        [by apply IH|by eexists].
Qed.

Lemma flatMapMessages_fails (msgs : list (AnthropicMessage JsonObject)) m :
  m ∈ msgs →
  (∃ e, convertMessage _ json_stringify m = Err e) →
  ∃ e, flatMapMessages _ json_stringify msgs = Err e.
Proof.
  intros Hin [e0 Hbad]. induction msgs as [|x msgs IH].
  - by apply not_elem_of_nil in Hin.
  - simpl. apply elem_of_cons in Hin as [<-|Hin].
    + rewrite Hbad. by eexists.
    + destruct (convertMessage _ json_stringify x); simpl; [|by eexists].
      destruct (IH Hin) as [e ->]. by eexists.
Qed.

(** X15: a serialization failure is never dropped silently.  If a well
    shaped conversation holds an assistant message with a [tool_use] part
    whose input cannot be serialized, or a user message with a
    [tool_result] part whose object content cannot be serialized, the
    translator fails with a serialization error. *)
Theorem format_stringify_failure (body : Body'') m parts :
  model body ≠ "" →
  Forall message_ok (messages body) →
  m ∈ messages body →
  a_content m = PartsContent parts →
  (a_role m = "assistant" ∧
   ∃ id name input, ToolUsePart id name input ∈ parts ∧
                    json_stringify input = None) ∨
  (a_role m = "user" ∧
   ∃ tid o, ToolResultPart tid (ResultObject o) ∈ parts ∧
            json_stringify o = None) →
  ∃ context, format'' body = Err (StringifyFailed context).
Proof.
  intros Hmodel%truthy_true Hok%(validateMessages_ok _ 0) Hin Hc Hbad.
  unfold formatAnthropicToOpenAI. rewrite Hmodel, Hok. simpl.
  assert (Hm : ∃ e, convertMessage _ json_stringify m = Err e).
  { unfold convertMessage. rewrite Hc.
    destruct Hbad as [[-> (id & name & input & Hp & Hf)]
                     |[-> (tid & o & Hp & Hf)]]; simpl.
    - destruct (assistantParts_fails parts id name input Hp Hf "" [])
        as [e ->]. by eexists.
    - destruct (userParts_fails parts tid o Hp Hf "" []) as [e ->].
      by eexists. }
  destruct (flatMapMessages_fails _ m Hin Hm) as [e He].
  rewrite He. simpl. pose proof (flatMapMessages_errors _ _ _ He) as Hs.
  destruct e; try done. by eexists.
Qed.

End Conversations.

(** ** The forwarding handler *)

Lemma eqb_string_true (a b : string) : String.eqb a b = true → a = b.
Proof. apply String.eqb_eq. Qed.

Lemma prefix_slice (p s : string) :
  String.prefix p s = true → s = p +:+ slice s (String.length p).
Proof.
  revert s. induction p as [|a p IH]; intros s.
  - by destruct s.
  - destruct s as [|b s]; simpl; [done|].
    destruct (Ascii.ascii_dec a b) as [->|]; [|done].
    intros Hp.
    change (String b s = String b (p +:+ slice s (String.length p))).
    f_equal. by apply IH.
Qed.

Lemma prefix_app_l (a b s : string) :
  String.prefix (a +:+ b) s = true → String.prefix a s = true.
Proof.
  revert s. induction a as [|x a IH]; intros s.
  - by destruct s.
  - destruct s as [|y s]; simpl; [done|].
    destruct (Ascii.ascii_dec x y); [apply IH|done].
Qed.

Lemma match_prefix_ci_app (literal scheme rest : string) :
  match_prefix_ci literal scheme = Some "" →
  match_prefix_ci literal (scheme +:+ rest) = Some rest.
Proof.
  revert scheme. induction literal as [|a literal IH]; intros scheme; simpl.
  - by intros [= ->].
  - destruct scheme as [|b scheme]; [done|]. simpl.
    destruct (Ascii.eqb (fold_case a) (fold_case b)); [apply IH|done].
Qed.

Lemma stripBearer_scheme (scheme token : string) :
  match_prefix_ci "Bearer" scheme = Some "" →
  stripBearer (scheme +:+ " " +:+ token) = trimStart token.
Proof.
  intros Hs. unfold stripBearer.
  by rewrite (match_prefix_ci_app _ _ _ Hs).
Qed.

Lemma match_prefix_ci_split (literal : string) : ∀ s r,
  match_prefix_ci literal s = Some r →
  ∃ scheme, s = scheme +:+ r ∧ match_prefix_ci literal scheme = Some "".
Proof.
  induction literal as [|a literal IH]; intros s r; simpl.
  - intros [= <-]. by exists "".
  - destruct s as [|b s]; [done|].
    destruct (Ascii.eqb (fold_case a) (fold_case b)) eqn:Hab; [|done].
    intros (scheme & -> & Hm)%IH. exists (String b scheme).
    split; [done|]. simpl. by rewrite Hab.
Qed.

Lemma bearer_then_space_inv value rest :
  bearer_then_space value rest →
  ∃ c, match_prefix_ci "Bearer" value = Some (String c rest) ∧
       is_white_space c = true.
Proof.
  intros (scheme & c & -> & Hscheme & Hc). exists c.
  by rewrite (match_prefix_ci_app _ _ _ Hscheme).
Qed.

Lemma stripBearer_bearer value rest :
  bearer_then_space value rest → stripBearer value = trimStart rest.
Proof.
  intros (scheme & c & -> & Hscheme & Hc). unfold stripBearer.
  by rewrite (match_prefix_ci_app _ _ _ Hscheme), Hc.
Qed.

Lemma stripBearer_other value :
  (∀ rest, ¬ bearer_then_space value rest) → stripBearer value = value.
Proof.
  intros Hno. unfold stripBearer.
  destruct (match_prefix_ci "Bearer" value) as [[|c rest]|] eqn:Hm; try done.
  destruct (is_white_space c) eqn:Hc; [|done].
  exfalso. apply (Hno rest).
  apply match_prefix_ci_split in Hm as (scheme & -> & Hscheme).
  by exists scheme, c.
Qed.

Lemma buildForwardHeaders_authorization token :
  buildForwardHeaders token !! "Authorization" =
  match token with
  | Some t => if truthy t then Some ("Bearer " +:+ t) else None
  | None => None
  end.
Proof.
  unfold buildForwardHeaders. destruct token as [t|]; [|done].
  destruct (truthy t); [by rewrite lookup_insert_eq|done].
Qed.

Section HandlerProperties.

Context {Tools : Type}.
Variable parse_object : string → option ProviderConfig.

Abbreviation prepare' := (prepare (Tools := Tools) parse_object).
Abbreviation handle := (handleOaiIfMatch (Tools := Tools) parse_object).

Lemma forwarded_authorization (request : Request Tools) env call :
  forwarded_call (prepare' request env) = Some call →
  f_headers call !! "Authorization" =
  buildForwardHeaders (bearerToken (req_headers request)) !! "Authorization".
Proof.
  unfold prepare. destruct (shouldHandleOai _ _); simpl; [|done].
  destruct (_ && _); simpl.
  - intros [= <-]. simpl. by rewrite lookup_delete_ne.
  - destruct (req_json request); simpl; [|done]. by intros [= <-].
Qed.

(** X16: every request the handler forwards goes to the base URL followed
    by the inbound path without its ["/oai/v1"] prefix, with the inbound
    method; the query string is forwarded for GET and dropped for POST. *)
Theorem forward_url_strips_prefix (request : Request Tools) env call :
  forwarded_call (prepare' request env) = Some call →
  ∃ rest,
    req_pathname request = "/oai/v1" +:+ rest ∧
    f_method call = req_method request ∧
    f_url call =
      baseUrl env +:+ rest +:+
      (if String.eqb (req_method request) "GET" then req_search request
       else "").
Proof.
  unfold prepare, shouldHandleOai.
  destruct (String.eqb (req_method request) "POST") eqn:Hpost.
  - apply eqb_string_true in Hpost. rewrite Hpost. simpl.
    destruct (String.eqb (req_pathname request) OAI_CHAT_PATH) eqn:Hchat;
      simpl.
    + apply eqb_string_true in Hchat.
      destruct (req_json request); simpl; [|done]. intros [= <-].
      exists "/chat/completions". by rewrite Hchat, string_app_empty_r.
    + destruct (String.eqb (req_pathname request) OAI_RESPONSES_PATH)
        eqn:Hresp; simpl; [|done].
      apply eqb_string_true in Hresp.
      destruct (req_json request); simpl; [|done]. intros [= <-].
      exists "/responses". by rewrite Hresp, string_app_empty_r.
  - destruct (String.eqb (req_method request) "GET") eqn:Hget; [|done].
    apply eqb_string_true in Hget.
    destruct (_ || _) eqn:Hpath; simpl; [|done]. intros [= <-]. simpl.
    exists ("/models" +:+ slice (req_pathname request)
                             (String.length OAI_MODELS_PATH)).
    split_and!; [|done|done].
    apply orb_true_iff in Hpath as [Heq|Hpre].
    + apply eqb_string_true in Heq. by rewrite Heq.
    + unfold startsWith in Hpre. apply prefix_app_l, prefix_slice in Hpre.
      rewrite Hpre at 1. done.
Qed.

(** X17: the credential forwarded upstream.  A non-empty [X-Api-Key]
    wins and is sent as [Bearer <key>].  Without it, an [Authorization]
    value that starts with ["Bearer"], in any letter case, followed by a
    white-space character is sent as [Bearer <rest>], where [rest] is
    what follows the white space after ["Bearer"]; every other
    [Authorization] value is sent whole behind ["Bearer "]; in both cases
    nothing is sent if what would follow ["Bearer "] is empty.  With
    neither header no [Authorization] is sent. *)
Theorem forward_authorization (request : Request Tools) env call :
  forwarded_call (prepare' request env) = Some call →
  let headers := req_headers request in
  (∀ key, headers "X-Api-Key" = Some key → key ≠ "" →
     f_headers call !! "Authorization" = Some ("Bearer " +:+ key)) ∧
  (∀ value rest,
     header_unset headers "X-Api-Key" →
     headers "Authorization" = Some value →
     bearer_then_space value rest →
     f_headers call !! "Authorization" = credential (trimStart rest)) ∧
  (∀ value,
     header_unset headers "X-Api-Key" →
     headers "Authorization" = Some value →
     (∀ rest, ¬ bearer_then_space value rest) →
     f_headers call !! "Authorization" = credential value) ∧
  (header_unset headers "X-Api-Key" →
   headers "Authorization" = None →
   f_headers call !! "Authorization" = None).
Proof.
  intros Hcall headers. rewrite (forwarded_authorization _ _ _ Hcall).
  rewrite buildForwardHeaders_authorization. fold headers.
  unfold bearerToken, or_else, credential. split_and!.
  - intros key -> Hkey%truthy_true. by rewrite Hkey, Hkey.
  - intros value rest Hunset -> Hbearer.
    rewrite (stripBearer_bearer _ _ Hbearer).
    by destruct Hunset as [-> | ->].
  - intros value Hunset -> Hother.
    rewrite (stripBearer_other _ Hother).
    by destruct Hunset as [-> | ->].
  - intros Hunset ->. by destruct Hunset as [-> | ->].
Qed.

Lemma indexTable_None (table : gmap string ProviderConfig) key :
  indexTable table key = None →
  table !! key = None ∧ key ∉ objectPrototypeKeys.
Proof.
  unfold indexTable. destruct (table !! key); [done|].
  destruct (bool_decide (key ∈ objectPrototypeKeys)) eqn:Hin; [done|].
  intros _. split; [done|]. by apply bool_decide_eq_false in Hin.
Qed.

(** X18: the provider field of a forwarded POST body.  An inline object
    in the body is forwarded as it came, and is what resolution yields.
    Otherwise, if resolution yields a value, the field is overwritten
    with that value: a directive, or for a key such as ["constructor"]
    the value the table inherits under it.  If resolution yields
    nothing, the field is forwarded as it came, and a non-empty string
    there is then neither a key of the table nor the name of a property
    inherited from [Object.prototype]. *)
Theorem forward_provider (request : Request Tools) env incoming forwarded call :
  req_json request = Some incoming →
  prepare' request env = ForwardPost forwarded call →
  f_body call = Some forwarded ∧
  match resolveProviderConfig parse_object (b_provider incoming)
          (req_headers request) (OPENROUTER_DEFAULT_PROVIDER env) with
  | Some value =>
      match b_provider incoming with
      | ProviderInline cfg =>
          value = Directive cfg ∧
          fw_provider forwarded = Untouched (ProviderInline cfg)
      | _ => fw_provider forwarded = Replaced value
      end
  | None =>
      fw_provider forwarded = Untouched (b_provider incoming) ∧
      ∀ key, b_provider incoming = ProviderKey key → key ≠ "" →
             providerConfigs !! key = None ∧ key ∉ objectPrototypeKeys
  end.
Proof.
  intros Hjson. unfold prepare.
  destruct (shouldHandleOai _ _); simpl; [|done].
  destruct (_ && _); simpl; [done|]. rewrite Hjson.
  intros [= <- <-]. simpl. split; [done|].
  destruct (resolveProviderConfig _ _ _ _) as [value|] eqn:Hres; simpl.
  - destruct (b_provider incoming) as [|key|inline|] eqn:Hp; try done.
    unfold resolveProviderConfig in Hres. simpl in Hres.
    injection Hres as <-. done.
  - split; [done|]. intros key Hp Hkey%truthy_true.
    unfold resolveProviderConfig in Hres. rewrite Hp in Hres.
    simpl in Hres. rewrite Hkey in Hres. by apply indexTable_None.
Qed.

(** X19: the handler answers on its own only for a POST body that is not
    JSON, with status 400; every other response carries the status of
    the upstream response to the forwarded call. *)
Theorem response_status_is_upstream (request : Request Tools) env fetch resp :
  handle request env fetch = Ok (Some resp) →
  (prepare' request env = InvalidJson ∧ req_json request = None ∧
   r_status resp = 400) ∨
  (∃ call, forwarded_call (prepare' request env) = Some call ∧
           r_status resp = up_status (fetch call)).
Proof.
  assert (Hnew : ∀ body status headers r,
            newResponse body status headers = Ok r → r_status r = status).
  { intros body status headers r. unfold newResponse.
    destruct (_ || _); [done|]. destruct (_ && _); [done|].
    by intros [= <-]. }
  unfold handleOaiIfMatch.
  destruct (prepare' request env) as [| |call|incoming call] eqn:Hprep;
    [done|..].
  - intros [= <-]. left. split_and!; try done. unfold prepare in Hprep.
    destruct (shouldHandleOai _ _); simpl in Hprep; [|done].
    destruct (_ && _); simpl in Hprep; [done|].
    by destruct (req_json request).
  - destruct (respondGet (fetch call)) as [r|e] eqn:Hr; [|done].
    intros [= <-]. right. exists call. split; [done|].
    unfold respondGet in Hr.
    destruct (up_ok (fetch call)); simpl in Hr; by apply Hnew in Hr.
  - destruct (respondPost incoming (fetch call)) as [r|e] eqn:Hr; [|done].
    intros [= <-]. right. exists call. split; [done|].
    unfold respondPost in Hr.
    destruct (up_ok (fetch call)); simpl in Hr; [|by apply Hnew in Hr].
    destruct (_ || _); by apply Hnew in Hr.
Qed.

(** X20: a POST that upstream answers with a status from 200 to 299.
    If the status is 204 or 205 and the response body is not null, which
    is always so when the answer is not streamed, constructing the
    response throws a [TypeError].  In every other case the handler
    returns a response with the upstream status and a non-empty content
    type: [text/event-stream] when the request asked for streaming or
    upstream sent an event stream, and otherwise the upstream content
    type, or [application/json] if upstream sent none. *)
Theorem post_response_content_type
    (incoming : ForwardedBody Tools) forwardResp :
  up_ok forwardResp = true →
  let upstream := default "" (up_headers forwardResp !! "content-type") in
  let streamed :=
    fw_stream incoming || includes upstream "text/event-stream" in
  if null_body_status (up_status forwardResp)
     && (negb streamed || bool_decide (is_Some (up_body forwardResp)))
  then respondPost incoming forwardResp = Err TypeError
  else
    ∃ resp headers contentType,
      respondPost incoming forwardResp = Ok resp ∧
      r_status resp = up_status forwardResp ∧
      r_headers resp = Some headers ∧
      headers !! "content-type" = Some contentType ∧
      contentType ≠ "" ∧
      contentType =
        if streamed then "text/event-stream"
        else if truthy upstream then upstream else "application/json".
Proof.
  intros Hok upstream streamed. unfold respondPost. rewrite Hok. simpl.
  set (contentType := match up_headers forwardResp !! "content-type" with
                      | Some value => if truthy value then value else ""
                      | None => ""
                      end).
  assert (Hct : contentType = upstream).
  { unfold contentType, upstream. destruct (_ !! _) as [v|]; simpl; [|done].
    destruct (truthy v) eqn:Hv; [done|]. by apply truthy_false in Hv. }
  rewrite Hct. fold streamed.
  assert (Hrange : (Nat.ltb (up_status forwardResp) 200
                    || Nat.ltb 599 (up_status forwardResp))%bool = false).
  { unfold up_ok in Hok. apply andb_true_iff in Hok as [H1 H2].
    apply Nat.leb_le in H1, H2. apply orb_false_iff.
    split; apply Nat.ltb_ge; lia. }
  unfold newResponse. rewrite Hrange.
  destruct streamed; simpl.
  - destruct (up_body forwardResp) as [body|]; simpl.
    + rewrite andb_true_r.
      destruct (null_body_status (up_status forwardResp)); simpl; [done|].
      eexists _, _, _.
      split_and!; try done; [by rewrite lookup_insert_eq | discriminate].
    + rewrite andb_false_r. simpl.
      eexists _, _, _.
      split_and!; try done; [by rewrite lookup_insert_eq | discriminate].
  - rewrite andb_true_r.
    destruct (null_body_status (up_status forwardResp)); simpl; [done|].
    eexists _, _, _. split_and!; try done.
    destruct (truthy upstream) eqn:Hv; [by apply truthy_true|discriminate].
Qed.

End HandlerProperties.

(** ** The two Chimera strippers *)

(** X21: the translator and the forwarding layer strip a chat message for
    Chimera in the same way, although they test role and invocations in
    opposite orders. *)
Theorem strippers_agree (m : OpenAIMessage) :
  stripToolData (ChatEntry m) = ChatEntry <$> stripIncomingMessage m.
Proof.
  unfold stripToolData, stripIncomingMessage.
  destruct (assistantCalls m) as [calls|] eqn:Hc.
  - by rewrite (assistantCalls_not_tool _ _ Hc).
  - by destruct (has_role "tool" m).
Qed.

Lemma stripIncomingMessage_stable m m' :
  stripIncomingMessage m = Some m' → stripIncomingMessage m' = Some m'.
Proof.
  unfold stripIncomingMessage.
  destruct (has_role "tool" m) eqn:Ht; [done|].
  destruct (assistantCalls m) as [calls|] eqn:Hc; intros [= <-].
  - unfold assistantCalls, has_role in *. simpl. rewrite Ht.
    by destruct (String.eqb (role m) "assistant").
  - by rewrite Ht, Hc.
Qed.

Lemma omap_stripIncomingMessage_idem (l : list OpenAIMessage) :
  omap stripIncomingMessage (omap stripIncomingMessage l)
  = omap stripIncomingMessage l.
Proof.
  induction l as [|m l IH]; [done|].
  change (omap stripIncomingMessage (m :: l))
    with (match stripIncomingMessage m with
          | Some m' => m' :: omap stripIncomingMessage l
          | None => omap stripIncomingMessage l
          end).
  destruct (stripIncomingMessage m) as [m'|] eqn:Hm; [|done].
  change (omap stripIncomingMessage (m' :: omap stripIncomingMessage l))
    with (match stripIncomingMessage m' with
          | Some m'' =>
              m'' :: omap stripIncomingMessage (omap stripIncomingMessage l)
          | None => omap stripIncomingMessage (omap stripIncomingMessage l)
          end).
  by rewrite (stripIncomingMessage_stable _ _ Hm), IH.
Qed.

(** X22: stripping an incoming body for Chimera twice is the same as
    stripping it once. *)
Theorem stripForChimera_idempotent {Tools : Type} (incoming : Incoming Tools) :
  stripForChimera (stripForChimera incoming) = stripForChimera incoming.
Proof.
  unfold stripForChimera at 2.
  destruct (bool_decide _) eqn:Hch; [|unfold stripForChimera; by rewrite Hch].
  unfold stripForChimera. simpl. rewrite Hch.
  destruct (in_messages incoming) as [msgs|]; [|done].
  by rewrite omap_stripIncomingMessage_idem.
Qed.

(** ** Instances of the further properties *)

Lemma validateOpenAIToolCalls_fixed_point_witness :
  validateOpenAIToolCalls paired_exchange = paired_exchange.
Proof.
  apply validateOpenAIToolCalls_fixed_point.
  - intros pre a post call Heq Hr Hcall. unfold paired_exchange in Heq.
    destruct pre as [|p1 [|p2 [|p3 [|p4 pre]]]]; simplify_eq/=.
    apply list_elem_of_singleton in Hcall as ->.
    eexists. split; [left|done].
  - intros pre t post Heq Hr. unfold paired_exchange in Heq.
    destruct pre as [|p1 [|p2 [|p3 [|p4 pre]]]]; simplify_eq/=.
    eexists. split; [reflexivity|]. split; [done|].
    eexists. split; [left|done].
  - intros m Hin Hr. unfold paired_exchange in Hin.
    repeat (apply elem_of_cons in Hin as [->|Hin]; [done|]).
    by apply not_elem_of_nil in Hin.
  - intros m Hin Hr. unfold paired_exchange in Hin.
    repeat (apply elem_of_cons in Hin as [->|Hin]; [done|]).
    by apply not_elem_of_nil in Hin.
Defined.

Lemma validateOpenAIToolCalls_leading_tools_witness :
  validateOpenAIToolCalls
    ([mkMessage "tool" (Text "late") None (Some "t0")] ++ paired_exchange)
  = validateOpenAIToolCalls paired_exchange.
Proof.
  apply validateOpenAIToolCalls_leading_tools. by constructor.
Defined.

Lemma validateOpenAIToolCalls_split_witness :
  validateOpenAIToolCalls (paired_exchange ++ unanswered_turn :: [])
  = validateOpenAIToolCalls paired_exchange
    ++ validateOpenAIToolCalls [unanswered_turn].
Proof. by apply validateOpenAIToolCalls_split. Defined.

Lemma validateOpenAIToolCalls_keeps_content_witness :
  ∃ m', m' ∈ validateOpenAIToolCalls (paired_exchange ++ [unanswered_turn]) ∧
        trimmed_copy unanswered_turn m'.
Proof.
  apply validateOpenAIToolCalls_keeps_content; [|done|done].
  apply elem_of_app. right. left.
Defined.

Lemma format_accepts_iff_witness :
  (∃ out, formatAnthropicToOpenAI stringify_any opus_conversation = Ok out) ↔
  model opus_conversation ≠ "" ∧ Forall message_ok (messages opus_conversation).
Proof.
  apply format_accepts_iff. intros o. by eexists.
Defined.

Lemma format_reports_first_invalid_message_witness :
  let body : ExampleBody :=
    mkBody "claude-3-sonnet"
      [mkAnthropicMessage "user" (StringContent "hello");
       mkAnthropicMessage "assistant" (StringContent "")]
      None None None None in
  ∃ message,
    messages body !! 1 = Some message ∧
    validateAnthropicMessage message = Err MessageContentMissing ∧
    ∀ j earlier, j < 1 → messages body !! j = Some earlier →
                 validateAnthropicMessage earlier = Ok tt.
Proof.
  intros body.
  by apply (format_reports_first_invalid_message stringify_any body).
Defined.

Lemma convertMessage_assistant_parts_witness :
  let parts : list (AnthropicContentPart unit) :=
    [TextPart "searching"; ToolUsePart "t1" "search" tt; TextPart "now"] in
  let out :=
    [mkMessage "assistant" (Text ("searching" +:+ newline +:+ "now"))
       (Some [mkToolCall "t1" "search" "{}"]) None] in
  convertMessage _ stringify_any
    (mkAnthropicMessage "assistant" (PartsContent parts)) = Ok out ∧
  ∃ calls,
    Forall2 (invocation_from stringify_any) (tool_uses parts) calls ∧
    let text := trim (joined_text parts) in
    out = match truthy text, calls with
          | false, [] => []
          | true, [] => [mkMessage "assistant" (Text text) None None]
          | false, _ :: _ => [mkMessage "assistant" Null (Some calls) None]
          | true, _ :: _ =>
              [mkMessage "assistant" (Text text) (Some calls) None]
          end.
Proof.
  intros parts out. split; [reflexivity|].
  by apply (convertMessage_assistant_parts stringify_any
              (mkAnthropicMessage "assistant" (PartsContent parts))).
Defined.

Lemma convertMessage_user_parts_witness :
  let parts : list (AnthropicContentPart unit) :=
    [ToolResultPart "t1" (ResultString "result"); TextPart "thanks"] in
  let out :=
    [mkMessage "user" (Text "thanks") None None;
     mkMessage "tool" (Text "result") None (Some "t1")] in
  convertMessage _ stringify_any
    (mkAnthropicMessage "user" (PartsContent parts)) = Ok out ∧
  ∃ toolMessages,
    Forall2 (tool_message_from stringify_any) (tool_results parts)
            toolMessages ∧
    let text := trim (joined_text parts) in
    out = (if truthy text then [mkMessage "user" (Text text) None None]
           else []) ++ toolMessages.
Proof.
  intros parts out. split; [reflexivity|].
  by apply (convertMessage_user_parts stringify_any
              (mkAnthropicMessage "user" (PartsContent parts))).
Defined.

Lemma format_plain_conversation_witness :
  ∃ out,
    formatAnthropicToOpenAI stringify_any
      (request "claude-3-opus" (Some (SystemString "be brief"))) = Ok out ∧
    p_messages out =
      [SystemEntry (mkSystemMessage [mkSystemPart "be brief" (Some Ephemeral)]);
       ChatEntry (mkMessage "user" (Text "hello") None None)].
Proof.
  eexists. split; [reflexivity|].
  apply (format_plain_conversation stringify_any
           (request "claude-3-opus" (Some (SystemString "be brief"))));
    [|reflexivity].
  constructor; [|constructor]. split; [done|by eexists].
Defined.

Lemma format_converts_tools_witness :
  ∃ out,
    formatAnthropicToOpenAI stringify_any request_with_tool = Ok out ∧
    mapModel (model request_with_tool) ≠ CHIMERA ∧
    ∃ converted,
      p_tools out = Some converted ∧
      Forall2 (fun t f => fn_name _ f = name _ t ∧
                          fn_description _ f = description _ t ∧
                          fn_parameters _ f = input_schema _ t)
              [mkToolSchema "search" "Search the web" tt] converted.
Proof.
  eexists. split; [reflexivity|]. split; [done|].
  by apply (format_converts_tools stringify_any request_with_tool).
Defined.

Lemma format_aliased_model_has_provider_witness :
  ∃ out,
    formatAnthropicToOpenAI stringify_any (request "claude-3-haiku" None)
    = Ok out ∧
    mapModel "claude-3-haiku" ≠ "claude-3-haiku" ∧
    ∃ cfg, p_provider out = Some (Directive cfg) ∧
         allow_fallbacks cfg = Some false.
Proof.
  eexists. split; [reflexivity|]. split; [done|].
  by apply (format_aliased_model_has_provider stringify_any
              (request "claude-3-haiku" None)).
Defined.

Lemma format_payload_paired_witness :
  ∃ out,
    formatAnthropicToOpenAI stringify_any (tool_round_trip "t1") = Ok out ∧
    mapModel (model (tool_round_trip "t1")) ≠ CHIMERA ∧
    ∃ chat,
      p_messages out =
        (SystemEntry <$> systemMessages (model (tool_round_trip "t1"))
                           (systemOrDefault (system (tool_round_trip "t1"))))
        ++ (ChatEntry <$> chat) ∧
      invocations_answered chat ∧ results_anchored chat.
Proof.
  eexists. split; [reflexivity|]. split; [done|].
  by apply (format_payload_paired stringify_any (tool_round_trip "t1")).
Defined.

Lemma format_stringify_failure_witness :
  let turn : AnthropicMessage bool :=
    mkAnthropicMessage "assistant"
      (PartsContent [TextPart "searching"; ToolUsePart "t1" "search" false]) in
  let body : MessageCreateParamsBase bool Z :=
    mkBody "claude-3-sonnet"
      [mkAnthropicMessage "user" (StringContent "find x"); turn]
      None None None None in
  ∃ context, formatAnthropicToOpenAI stringify_if body
             = Err (StringifyFailed context).
Proof.
  intros turn body.
  apply (format_stringify_failure stringify_if body turn
           [TextPart "searching"; ToolUsePart "t1" "search" false]).
  - done.
  - repeat constructor; done.
  - right. left.
  - reflexivity.
  - left. split; [reflexivity|]. exists "t1", "search", false.
    split; [right; left|reflexivity].
Defined.

Lemma forward_url_strips_prefix_witness :
  ∃ call,
    forwarded_call (prepare parse_empty_object models_request example_env)
    = Some call ∧
    ∃ rest,
      req_pathname models_request = "/oai/v1" +:+ rest ∧
      f_method call = "GET" ∧
      f_url call = baseUrl example_env +:+ rest +:+ "?verbose=1".
Proof.
  eexists. split; [reflexivity|].
  by apply (forward_url_strips_prefix parse_empty_object models_request
              example_env).
Defined.

Lemma forward_authorization_witness :
  (∃ call,
     forwarded_call (prepare parse_empty_object chat_request example_env)
     = Some call ∧
     f_headers call !! "Authorization" = Some "Bearer sk-key") ∧
  (∃ call,
     forwarded_call (prepare parse_empty_object models_request example_env)
     = Some call ∧
     f_headers call !! "Authorization" = Some "Bearer sk-123") ∧
  (∃ call,
     forwarded_call (prepare parse_empty_object tab_request example_env)
     = Some call ∧
     f_headers call !! "Authorization" = Some "Bearer tok") ∧
  (∃ call,
     forwarded_call (prepare parse_empty_object glued_request example_env)
     = Some call ∧
     f_headers call !! "Authorization" = Some "Bearer BearerXYZ").
Proof.
  split_and!.
  - eexists. split; [reflexivity|].
    by apply (proj1 (forward_authorization parse_empty_object chat_request
                       example_env _ eq_refl) "sk-key").
  - eexists. split; [reflexivity|].
    apply (proj1 (proj2 (forward_authorization parse_empty_object
                           models_request example_env _ eq_refl))
             "bearer   sk-123" "  sk-123"); [by left|done|].
    by exists "bearer", " "%char.
  - eexists. split; [reflexivity|].
    apply (proj1 (proj2 (forward_authorization parse_empty_object
                           tab_request example_env _ eq_refl))
             ("Bearer" +:+ String "009" "tok") "tok"); [by left|done|].
    by exists "Bearer", "009"%char.
  - eexists. split; [reflexivity|].
    apply (proj1 (proj2 (proj2 (forward_authorization parse_empty_object
                                  glued_request example_env _ eq_refl)))
             "BearerXYZ"); [by left|done|].
    intros rest (c & Hm & Hc)%bearer_then_space_inv.
    injection Hm as <- <-. discriminate Hc.
Defined.

Lemma forward_provider_witness :
  (∃ incoming forwarded call,
     req_json chat_request = Some incoming ∧
     prepare parse_empty_object chat_request example_env
     = ForwardPost forwarded call ∧
     f_body call = Some forwarded ∧
     fw_provider forwarded
     = Replaced
         (Directive
            (mkProvider (Some ["minimax"])
               (Some ["deepinfra"; "chutes"; "novita"])
               (Some false) (Some "deny") (Some true)))) ∧
  (∃ incoming forwarded call,
     req_json inherited_request = Some incoming ∧
     prepare parse_empty_object inherited_request example_env
     = ForwardPost forwarded call ∧
     f_body call = Some forwarded ∧
     fw_provider forwarded = Replaced (Inherited "constructor")).
Proof.
  split.
  - eexists _, _, _. split; [reflexivity|]. split; [reflexivity|].
    destruct (forward_provider parse_empty_object chat_request example_env
                _ _ _ eq_refl eq_refl) as [Hbody Hprovider].
    split; [exact Hbody|exact Hprovider].
  - eexists _, _, _. split; [reflexivity|]. split; [reflexivity|].
    destruct (forward_provider parse_empty_object inherited_request
                example_env _ _ _ eq_refl eq_refl) as [Hbody Hprovider].
    split; [exact Hbody|exact Hprovider].
Defined.

Lemma response_status_is_upstream_witness :
  ∃ resp,
    handleOaiIfMatch parse_empty_object chat_request example_env
      (fun _ => mkUpstream 429 ∅ (Some "slow down")) = Ok (Some resp) ∧
    ∃ call,
      forwarded_call (prepare parse_empty_object chat_request example_env)
      = Some call ∧
      r_status resp = 429.
Proof.
  eexists. split; [reflexivity|].
  destruct (response_status_is_upstream parse_empty_object chat_request
              example_env (fun _ => mkUpstream 429 ∅ (Some "slow down"))
              _ eq_refl)
    as [(? & ? & ?)|(call & Hcall & Hstatus)]; [done|].
  by exists call.
Defined.

Lemma post_response_content_type_witness :
  up_ok upstream_json = true ∧
  (∃ resp headers contentType,
     respondPost plain_forwarded upstream_json = Ok resp ∧
     r_status resp = 200 ∧
     r_headers resp = Some headers ∧
     headers !! "content-type" = Some contentType ∧
     contentType ≠ "" ∧
     contentType = "application/json") ∧
  up_ok (mkUpstream 204 ∅ None) = true ∧
  respondPost plain_forwarded (mkUpstream 204 ∅ None) = Err TypeError.
Proof.
  split; [reflexivity|]. split; [|split; [reflexivity|]].
  - exact (post_response_content_type plain_forwarded upstream_json eq_refl).
  - exact (post_response_content_type plain_forwarded
             (mkUpstream 204 ∅ None) eq_refl).
Defined.

(** ** What the validator and the strippers keep *)

Lemma validateLoop_at pre : ∀ before x post m',
  m' ∈ validateStep (reverse pre ++ before) x post →
  m' ∈ validateLoop before (pre ++ x :: post).
Proof.
  induction pre as [|p pre IH]; intros before x post m' Hin; simpl.
  - apply elem_of_app. by left.
  - apply elem_of_app. right. apply IH.
    by rewrite reverse_cons, <- app_assoc in Hin.
Qed.

(** X23: a tool message that answers is never dropped.  If the nearest
    non-tool message before a tool message is an assistant message with
    an invocation whose non-empty id is the tool message's
    [tool_call_id], the tool message is in the output. *)
Theorem validateOpenAIToolCalls_keeps_answer
    (pre post : list OpenAIMessage) t a call :
  role t = "tool" →
  precedingNonTool (reverse pre) = Some a →
  role a = "assistant" →
  call ∈ invocations a →
  tool_call_id t = Some (call_id call) →
  call_id call ≠ "" →
  t ∈ validateOpenAIToolCalls (pre ++ t :: post).
Proof.
  intros Ht%has_role_true Hnear Hr Hcall Hid Hne%truthy_true.
  apply validateLoop_at. rewrite app_nil_r.
  rewrite (validateStep_tool _ _ _ Ht), Hnear.
  assert (Hk : keeps (Some a) t = true).
  { apply keeps_true. unfold invocations in Hcall.
    destruct (tool_calls a) as [calls|] eqn:Htc;
      [|by apply not_elem_of_nil in Hcall].
    exists a, calls, call. split_and!; try done.
    by apply assistantCalls_Some. }
  rewrite Hk. left.
Qed.

(** X24: an invocation that is answered is never dropped.  If an
    assistant message carries an invocation with a non-empty id and a
    tool message in the run right after it has that id as
    [tool_call_id], the output holds the assistant message, with the same
    role and content, still carrying that invocation. *)
Theorem validateOpenAIToolCalls_keeps_invocation
    (pre post : list OpenAIMessage) a call t :
  role a = "assistant" →
  call ∈ invocations a →
  t ∈ immediateToolMessages post →
  tool_call_id t = Some (call_id call) →
  call_id call ≠ "" →
  ∃ a', a' ∈ validateOpenAIToolCalls (pre ++ a :: post) ∧
        trimmed_copy a a' ∧ call ∈ invocations a'.
Proof.
  intros Hr Hcall Hin Hid Hne%truthy_true.
  assert (Ht : has_role "tool" a = false)
    by (apply has_role_false; by rewrite Hr).
  destruct (validateStep_head a post Ht)
    as [[_ Hnone]|(a' & Hstep & Hrole & Hcont & Htid & Hinv & _)].
  - exfalso. specialize (Hnone t Hin).
    apply not_true_iff_false in Hnone. apply Hnone, keeps_true.
    unfold invocations in Hcall.
    destruct (tool_calls a) as [calls|] eqn:Htc;
      [|by apply not_elem_of_nil in Hcall].
    exists a, calls, call. split_and!; try done.
    by apply assistantCalls_Some.
  - assert (Hcall' : call ∈ invocations a').
    { apply (Hinv Hr). split; [done|]. by exists t. }
    exists a'. split_and!; [|split_and!; try done|done].
    + apply validateLoop_at.
      rewrite (validateStep_non_tool _ _ _ Ht), Hstep. left.
    + destruct (validateStep_trims [] a post) as [Hnil|(a'' & Heq & Htrim)].
      * rewrite Hstep in Hnil. done.
      * rewrite Hstep in Heq. injection Heq as <-. apply Htrim.
Qed.

(** X25: stripping for Chimera keeps every message that is not a tool
    message, in order, with its role, content and [tool_call_id]; what it
    removes is the tool messages and the invocation lists of assistant
    messages. *)
Theorem stripIncomingMessage_keeps_non_tool (msgs : list OpenAIMessage) :
  Forall2 (fun m m' => role m' = role m ∧ content m' = content m ∧
                       tool_call_id m' = tool_call_id m)
          (filter (fun m => role m ≠ "tool") msgs)
          (omap stripIncomingMessage msgs).
Proof.
  induction msgs as [|m msgs IH]; [constructor|].
  change (omap stripIncomingMessage (m :: msgs))
    with (match stripIncomingMessage m with
          | Some m' => m' :: omap stripIncomingMessage msgs
          | None => omap stripIncomingMessage msgs
          end).
  rewrite filter_cons. unfold stripIncomingMessage.
  destruct (has_role "tool" m) eqn:Ht.
  - apply has_role_true in Ht. by rewrite decide_False by (by intros ?).
  - apply has_role_false in Ht. rewrite decide_True by done.
    destruct (assistantCalls m); by constructor.
Qed.

Lemma validateParts_first_error {JsonObject : Type}
    (parts : list (AnthropicContentPart JsonObject)) :
  ∀ index err,
    validateParts index parts = Err err →
    ∃ i part,
      parts !! i = Some part ∧
      validatePart (index + i) part = Err err ∧
      ∀ j earlier, j < i → parts !! j = Some earlier → part_ok earlier.
Proof.
  induction parts as [|part parts IH]; intros index err; simpl; [done|].
  destruct (validatePart index part) as [[]|e] eqn:Hp; simpl.
  - intros (i & bad & Hlook & Hbad & Hbefore)%IH.
    exists (S i), bad. split_and!; [done| |].
    + by replace (index + S i) with (S index + i) by lia.
    + intros [|j] earlier Hj; simpl.
      * intros [= <-]. by apply (validatePart_ok index).
      * apply Hbefore. lia.
  - intros [= <-]. exists 0, part. split_and!; [done| |].
    + by rewrite Nat.add_0_r.
    + intros j earlier Hj. lia.
Qed.

(** X26: when a message is rejected for one of its content parts, the
    error is that of the first part that fails validation, checked at its
    own index; every part before it is well shaped. *)
Theorem validateAnthropicMessage_first_invalid_part {JsonObject : Type}
    (message : AnthropicMessage JsonObject) parts err :
  a_role message ≠ "" →
  a_content message = PartsContent parts →
  validateAnthropicMessage message = Err err →
  ∃ i part,
    parts !! i = Some part ∧
    validatePart i part = Err err ∧
    ∀ j earlier, j < i → parts !! j = Some earlier → part_ok earlier.
Proof.
  intros Hr%truthy_true Hc. unfold validateAnthropicMessage.
  rewrite Hr, Hc. simpl. apply (validateParts_first_error parts 0).
Qed.

Lemma validateOpenAIToolCalls_keeps_answer_witness :
  mkMessage "tool" (Text "result") None (Some "t1")
  ∈ validateOpenAIToolCalls paired_exchange.
Proof.
  apply (validateOpenAIToolCalls_keeps_answer
           [mkMessage "user" (Text "find x") None None;
            mkMessage "assistant" Null
              (Some [mkToolCall "t1" "search" "{}"]) None]
           [] _
           (mkMessage "assistant" Null
              (Some [mkToolCall "t1" "search" "{}"]) None)
           (mkToolCall "t1" "search" "{}")); try done.
  left.
Defined.

Lemma validateOpenAIToolCalls_keeps_invocation_witness :
  ∃ a', a' ∈ validateOpenAIToolCalls paired_exchange ∧
        trimmed_copy
          (mkMessage "assistant" Null
             (Some [mkToolCall "t1" "search" "{}"]) None) a' ∧
        mkToolCall "t1" "search" "{}" ∈ invocations a'.
Proof.
  apply (validateOpenAIToolCalls_keeps_invocation
           [mkMessage "user" (Text "find x") None None]
           [mkMessage "tool" (Text "result") None (Some "t1")] _ _
           (mkMessage "tool" (Text "result") None (Some "t1")));
    try done; left.
Defined.

Lemma validateAnthropicMessage_first_invalid_part_witness :
  let parts : list (AnthropicContentPart unit) :=
    [TextPart "searching"; ToolUsePart "" "search" tt; OtherPart "image"] in
  ∃ i part,
    parts !! i = Some part ∧
    validatePart i part = Err (ToolUseIdInvalid 1) ∧
    ∀ j earlier, j < i → parts !! j = Some earlier → part_ok earlier.
Proof.
  intros parts.
  by apply (validateAnthropicMessage_first_invalid_part
              (mkAnthropicMessage "assistant" (PartsContent parts))).
Defined.
